(** * Bulk-sync engine of the migration scripts: a shallow embedding

    The development follows the TypeScript sources:
    - [src/index.ts]: the migration of the legacy users into the remote
      identity service (the checks of the key and the configuration,
      [splitName], [createUser], [updateUser], [processUserToClerk],
      [cooldown], [rateLimitCooldown], [main]);
    - [src/backup.ts]: the export of users, organizations and memberships,
      three paginated traversals written as [do ... while] loops;
    - [src/unnamed/part_000]: the export of the users alone, a first request
      followed by a [while] loop;
    - [src/org_ids/orgs_get_ids.ts]: an earlier export of the three
      collections, a first request followed by a [while] loop for users and
      organizations, and the comparison of the names of teams with those of
      organizations.

    JavaScript values are represented as follows.  A string is a [string]
    whose characters are the code units below 256.  [undefined] is [None],
    every other value of a dynamically typed position is a [Json].  An object
    is the list of its own enumerable properties in insertion order.  An
    [await] that rejects is the [Threw] completion.  Of the progress spinner
    the model keeps the text that a script reads back, and of a CSV file the
    list of the chunks appended to it. *)

From Stdlib Require Import List String Ascii ZArith Lia Bool Arith PeanoNat.
From Stdlib Require DecimalString DecimalNat DecimalFacts.
Import ListNotations.
Open Scope string_scope.
Open Scope list_scope.
Open Scope nat_scope.

(* ================================================================== *)
(** * JavaScript values *)

Module Js.

#[warnings="-register-all"]
Inductive Json : Type :=
| JNull
| JBool (b : bool)
| JNum (z : Z)
| JStr (s : string)
| JArr (items : list Json)
| JObj (props : list (string * Json)).

(** An object, as the list of its own enumerable properties. *)
Definition Obj : Type := list (string * Json).

(** [o.k]: [None] is [undefined]. *)
Fixpoint obj_get (k : string) (o : Obj) : option Json :=
  match o with
  | [] => None
  | (k', v) :: rest => if String.eqb k k' then Some v else obj_get k rest
  end.

(** [o.k = v]: an existing key keeps its place, a new one comes last. *)
Fixpoint obj_set (k : string) (v : Json) (o : Obj) : Obj :=
  match o with
  | [] => [(k, v)]
  | (k', v') :: rest =>
      if String.eqb k k' then (k', v) :: rest else (k', v') :: obj_set k v rest
  end.

(** [{ ...base, ...extra }]: the properties of [extra] are assigned, in
    order, onto a copy of [base].  The list keeps the order of insertion;
    JavaScript enumerates the keys that are array indices before the others,
    so the list is the object up to the place of such keys, and the
    statements below read an object through [obj_get] only. *)
Definition obj_spread (base extra : Obj) : Obj :=
  fold_left (fun acc kv => obj_set (fst kv) (snd kv) acc) extra base.

(** [v === n] for a number literal [n]. *)
Definition strict_eq_num (v : option Json) (n : Z) : bool :=
  match v with
  | Some (JNum z) => Z.eqb z n
  | _ => false
  end.

(** [v === s] where [s] is a string or [undefined]. *)
Definition strict_eq_str (v : option Json) (s : option string) : bool :=
  match v, s with
  | None, None => true
  | Some (JStr x), Some y => String.eqb x y
  | _, _ => false
  end.

(** [v === b] for a boolean [b]. *)
Definition strict_eq_bool (v : option Json) (b : bool) : bool :=
  match v with
  | Some (JBool x) => Bool.eqb x b
  | _ => false
  end.

(** The white space of [String.prototype.trim] (WhiteSpace and
    LineTerminator) among the code units below 256: TAB, LF, VT, FF, CR,
    SP and NBSP. *)
Definition isWhiteSpace (c : ascii) : bool :=
  let n := nat_of_ascii c in
  (((9 <=? n) && (n <=? 13)) || (n =? 32) || (n =? 160))%nat.

Fixpoint trimStart (s : string) : string :=
  match s with
  | EmptyString => EmptyString
  | String c rest => if isWhiteSpace c then trimStart rest else s
  end.

Fixpoint trimEnd (s : string) : string :=
  match s with
  | EmptyString => EmptyString
  | String c rest =>
      match trimEnd rest with
      | EmptyString => if isWhiteSpace c then EmptyString else String c EmptyString
      | kept => String c kept
      end
  end.

(** [s.trim()] *)
Definition trim (s : string) : string := trimEnd (trimStart s).

(** [s.split(sep)] for a separator of one code unit: the pieces between
    the occurrences of [sep]; the empty string gives one empty piece. *)
Fixpoint split (sep : ascii) (s : string) : list string :=
  match s with
  | EmptyString => [EmptyString]
  | String c rest =>
      if Ascii.eqb c sep then EmptyString :: split sep rest
      else match split sep rest with
           | [] => [String c EmptyString]
           | piece :: pieces => String c piece :: pieces
           end
  end.

(** [a.slice(start)] on an array. *)
Definition slice {A : Type} (start : Z) (a : list A) : list A :=
  let len := Z.of_nat (List.length a) in
  let from := if (start <? 0)%Z then Z.max (len + start) 0 else Z.min start len in
  skipn (Z.to_nat from) a.

(** A JavaScript number that is an integer or [NaN] ([None]). *)
Definition Num : Type := option Z.

(** The integers that a JavaScript number holds exactly, together with
    every integer nearer to 0: those up to 2^53 in magnitude. *)
Definition exactInteger (z : Z) : Prop := (Z.abs z <= 2 ^ 53)%Z.

Definition digitValue (c : ascii) : option Z :=
  let n := nat_of_ascii c in
  if ((48 <=? n) && (n <=? 57))%nat then Some (Z.of_nat (n - 48))
  else if ((97 <=? n) && (n <=? 102))%nat then Some (Z.of_nat (n - 87))
  else if ((65 <=? n) && (n <=? 70))%nat then Some (Z.of_nat (n - 55))
  else None.

(** The longest prefix of digits of the radix, read as a number;
    [None] when that prefix is empty. *)
Fixpoint digits (radix : Z) (acc : option Z) (s : string) : option Z :=
  match s with
  | EmptyString => acc
  | String c rest =>
      match digitValue c with
      | Some d =>
          if (d <? radix)%Z
          then digits radix (Some (match acc with Some a => a * radix + d | None => d end)%Z) rest
          else acc
      | None => acc
      end
  end.

(** [parseInt(s)] without a radix argument: leading white space is
    skipped, a sign is read, a [0x] or [0X] prefix selects radix 16, and
    the digits stop at the first character that is not one.  The result is
    the integer that the digits denote.  That is the number of the script
    when it is an [exactInteger]; beyond, the script holds the nearest
    double, so what is stated of a parsed value is stated within that
    range. *)
Definition parseInt (s : string) : Num :=
  let s1 := trimStart s in
  let '(sign, s2) :=
    match s1 with
    | String "-"%char rest => ((-1)%Z, rest)
    | String "+"%char rest => (1%Z, rest)
    | _ => (1%Z, s1)
    end in
  let '(radix, s3) :=
    match s2 with
    | String "0"%char (String "x"%char rest) => (16%Z, rest)
    | String "0"%char (String "X"%char rest) => (16%Z, rest)
    | _ => (10%Z, s2)
    end in
  option_map (Z.mul sign) (digits radix None s3).

(** [a ?? b] *)
Definition nullish {A : Type} (a : option A) (b : A) : A :=
  match a with
  | Some x => x
  | None => b
  end.

End Js.
Import Js.

(* ================================================================== *)
(** * src/index.ts: configuration *)

Module Config.

(** The variables of [process.env] that index.ts reads. *)
Record Env : Type := {
  DELAY_MS : option string;
  RETRY_DELAY_MS : option string;
  OFFSET_VAR : option string
}.

Definition DELAY (env : Env) : Num := parseInt (nullish (DELAY_MS env) "1_000").
Definition RETRY_DELAY (env : Env) : Num :=
  parseInt (nullish (RETRY_DELAY_MS env) "10_000").
Definition OFFSET (env : Env) : Num := parseInt (nullish (OFFSET_VAR env) "0").

(** The environment that sets none of the three variables. *)
Definition unset : Env :=
  {| DELAY_MS := None; RETRY_DELAY_MS := None; OFFSET_VAR := None |}.

End Config.

(* ================================================================== *)
(** * src/index.ts: the record transformer *)

(** The string made of one quotation mark (code unit 34), the literal that
    the source compares the name and the location with. *)
Definition QUOTE : string := String "034"%char EmptyString.

(** [type User = z.infer<typeof userSchema>] *)
Record User : Type := {
  userId : string;
  email : string;
  name : option string;
  location : option string;
  agreedTerms : bool
}.

Definition splitName (name : option string) : option string * option string :=
  if strict_eq_str (option_map JStr name) (Some QUOTE) then (None, None)
  else
    let trimmed := option_map trim name in
    let nameParts := nullish (option_map (split " "%char) trimmed) [] in
    if (List.length nameParts =? 2)%nat
    then (nth_error nameParts 0, nth_error nameParts 1)
    else (trimmed, None).

(** [let org = userData.location], reset to [undefined] when it is the
    quotation mark. *)
Definition orgOf (userData : User) : option string :=
  let org := location userData in
  if strict_eq_str (option_map JStr org) (Some QUOTE) then None else org.

(** The [publicMetadata] that both payloads carry. *)
Record PublicMetadata : Type := {
  pm_agreedTerms : bool;
  pm_emailConsent : bool;
  pm_org : option string
}.

(** The argument of [clerkClient.users.createUser]. *)
Record CreateUserParams : Type := {
  cu_externalId : string;
  cu_emailAddress : list string;
  cu_firstName : option string;
  cu_lastName : option string;
  cu_skipPasswordRequirement : bool;
  cu_publicMetadata : PublicMetadata
}.

(** The second argument of [clerkClient.users.updateUser]. *)
Record UpdateUserParams : Type := {
  uu_externalId : string;
  uu_firstName : option string;
  uu_lastName : option string;
  uu_publicMetadata : PublicMetadata;
  uu_createOrganizationEnabled : bool;
  uu_deleteSelfEnabled : bool
}.

(** The payload that [createUser] sends. *)
Definition createUserParams (userData : User) : CreateUserParams :=
  let '(firstName, lastName) := splitName (name userData) in
  let org := orgOf userData in
  {| cu_externalId := userId userData;
     cu_emailAddress := [email userData];
     cu_firstName := firstName;
     cu_lastName := lastName;
     cu_skipPasswordRequirement := true;
     cu_publicMetadata :=
       {| pm_agreedTerms := agreedTerms userData;
          pm_emailConsent := false;
          pm_org := org |} |}.

(** The payload that [updateUser] sends when it updates. *)
Definition updateUserParams (userData : User) : UpdateUserParams :=
  let '(firstName, lastName) := splitName (name userData) in
  let org := orgOf userData in
  {| uu_externalId := userId userData;
     uu_firstName := firstName;
     uu_lastName := lastName;
     uu_publicMetadata :=
       {| pm_agreedTerms := agreedTerms userData;
          pm_emailConsent := false;
          pm_org := org |};
     uu_createOrganizationEnabled := false;
     uu_deleteSelfEnabled := false |}.

(** The fields of the service's user object that index.ts reads.  The
    fields compared with [!==] hold any JavaScript value. *)
Record ClerkUser : Type := {
  id : string;
  emailAddresses : list string;
  externalId : option Json;
  firstName : option Json;
  lastName : option Json;
  publicMetadata : Obj;
  createOrganizationEnabled : bool
}.

(** The condition of the [if] of [updateUser]: one disjunct per field. *)
Definition differs (existing : ClerkUser) (userData : User) : bool :=
  let '(firstName', lastName') := splitName (name userData) in
  let org := orgOf userData in
  negb (strict_eq_str (externalId existing) (Some (userId userData)))
  || negb (strict_eq_str (firstName existing) firstName')
  || negb (strict_eq_str (lastName existing) lastName')
  || negb (strict_eq_bool (obj_get "agreedTerms" (publicMetadata existing))
             (agreedTerms userData))
  || negb (strict_eq_str (obj_get "org" (publicMetadata existing)) org)
  || createOrganizationEnabled existing.

(** A paginated answer of the service: [{ data, totalCount }]. *)
Record PaginatedResponse (A : Type) : Type := {
  data : list A;
  totalCount : nat
}.
Arguments data {A} _.
Arguments totalCount {A} _.

(** The result of an awaited call: rejected with an error object, or
    fulfilled with a value. *)
Definition Answer (A : Type) : Type := (Obj + A)%type.

(** What the run does to the outside, in order. *)
Inductive Event : Type :=
| EvCreateUser (params : CreateUserParams) (answer : Answer ClerkUser)
| EvGetUserList (emailAddress : list string)
    (answer : Answer (PaginatedResponse ClerkUser))
| EvUpdateUser (userId : string) (params : UpdateUserParams)
    (answer : Answer ClerkUser)
| EvCooldown (ms : Num)
| EvRateLimitCooldown (ms : Num)
| EvAppendLog (payload : Obj).

(** The remote identity service, for a type [St] of its states: each call
    answers and moves the service to a new state. *)
Record ClerkApi (St : Type) : Type := {
  users_createUser : CreateUserParams -> St -> Answer ClerkUser * St;
  users_getUserList :
    list string -> St -> Answer (PaginatedResponse ClerkUser) * St;
  users_updateUser : string -> UpdateUserParams -> St -> Answer ClerkUser * St
}.
Arguments users_createUser {St} _ _ _.
Arguments users_getUserList {St} _ _ _.
Arguments users_updateUser {St} _ _ _ _.

(** How a call or a block ends; [Spent] when the fuel that bounds a loop
    or a recursion of the model ran out before it ended. *)
Inductive Completion (A : Type) : Type :=
| Returned (a : A)
| Threw (error : Obj)
| Spent.
Arguments Returned {A} _.
Arguments Threw {A} _.
Arguments Spent {A}.

(** The state of a run: the service, what happened so far, and the two
    counters [migrated] and [updated]. *)
Record World (St : Type) : Type := {
  clerk : St;
  trace : list Event;
  migrated : nat;
  updated : nat
}.
Arguments clerk {St} _.
Arguments trace {St} _.
Arguments migrated {St} _.
Arguments updated {St} _.

(** A computation: from a state to a completion and the state it leaves. *)
Definition M (St A : Type) : Type := World St -> Completion A * World St.

Definition ret {St A : Type} (a : A) : M St A := fun w => (Returned a, w).

Definition throw {St A : Type} (e : Obj) : M St A := fun w => (Threw e, w).

Definition bind {St A B : Type} (m : M St A) (k : A -> M St B) : M St B :=
  fun w =>
    match m w with
    | (Returned a, w') => k a w'
    | (Threw e, w') => (Threw e, w')
    | (Spent, w') => (Spent, w')
    end.

(** [try { body } catch (error) { handler }] *)
Definition try_catch {St A : Type} (body : M St A) (handler : Obj -> M St A) : M St A :=
  fun w =>
    match body w with
    | (Threw e, w') => handler e w'
    | other => other
    end.

Declare Scope engine_scope.
Delimit Scope engine_scope with engine.
Notation "x <- m ;; k" := (bind m (fun x => k))
  (at level 61, m at next level, right associativity) : engine_scope.
Notation "m ;; k" := (bind m (fun _ => k))
  (at level 61, right associativity) : engine_scope.

Definition emit {St : Type} (ev : Event) : M St unit :=
  fun w =>
    (Returned tt,
     {| clerk := clerk w; trace := trace w ++ [ev];
        migrated := migrated w; updated := updated w |}).

Definition incr_migrated {St : Type} : M St unit :=
  fun w =>
    (Returned tt,
     {| clerk := clerk w; trace := trace w;
        migrated := migrated w + 1; updated := updated w |}).

Definition incr_updated {St : Type} : M St unit :=
  fun w =>
    (Returned tt,
     {| clerk := clerk w; trace := trace w;
        migrated := migrated w; updated := updated w + 1 |}).

(** An awaited call of the service: the answer is recorded in the trace,
    a rejection is thrown. *)
Definition await {St A : Type} (call : St -> Answer A * St)
    (record : Answer A -> Event) : M St A :=
  fun w =>
    let '(answer, s') := call (clerk w) in
    let w' := {| clerk := s'; trace := trace w ++ [record answer];
                 migrated := migrated w; updated := updated w |} in
    match answer with
    | inl e => (Threw e, w')
    | inr a => (Returned a, w')
    end.

(** [v.k] on a parsed JSON value: a [TypeError] on [null], [undefined] on
    the values that are not objects. *)
Definition member (v : Json) (k : string) : Obj + option Json :=
  match v with
  | JNull => inl []
  | JObj props => inr (obj_get k props)
  | _ => inr None
  end.

(* ================================================================== *)
(** * src/index.ts: reconciliation, pacing and the audit log *)

Section Engine.

Local Open Scope engine_scope.

(** The email test of [z.string().email()] and the issues that a failed
    parse reports belong to the validation library. *)
Variable isEmail : string -> bool.
Variable zodIssues : Json -> list Json.

(** The two delays, given to [setTimeout] as they were parsed. *)
Variable DELAY : Num.
Variable RETRY_DELAY : Num.

Variable St : Type.
Variable clerkClient : ClerkApi St.

(** The error of a failed [safeParse]: it has no [status]. *)
Definition zodError (raw : Json) : Obj :=
  [("issues", JArr (zodIssues raw)); ("name", JStr "ZodError")].

Definition parseString (v : option Json) : option string :=
  match v with
  | Some (JStr s) => Some s
  | _ => None
  end.

(** [z.string().optional()]: absent, or a string. *)
Definition parseOptionalString (v : option Json) : option (option string) :=
  match v with
  | None => Some None
  | Some (JStr s) => Some (Some s)
  | Some _ => None
  end.

Definition parseBoolean (v : option Json) : option bool :=
  match v with
  | Some (JBool b) => Some b
  | _ => None
  end.

(** [userSchema.safeParse(userData)]: the error, or the parsed data. *)
Definition safeParse (raw : Json) : Obj + User :=
  match raw with
  | JObj props =>
      match parseString (obj_get "userId" props),
            parseString (obj_get "email" props),
            parseOptionalString (obj_get "name" props),
            parseOptionalString (obj_get "location" props),
            parseBoolean (obj_get "agreedTerms" props) with
      | Some uid, Some mail, Some nm, Some loc, Some agreed =>
          if isEmail mail
          then inr {| userId := uid; email := mail; name := nm;
                      location := loc; agreedTerms := agreed |}
          else inl (zodError raw)
      | _, _, _, _, _ => inl (zodError raw)
      end
  | _ => inl (zodError raw)
  end.

Definition createUser (userData : User) : M St ClerkUser :=
  let params := createUserParams userData in
  await (users_createUser clerkClient params) (EvCreateUser params).

(** The value of [updateUser] is the updated user, or [undefined] when
    the lookup finds nobody or nothing differs. *)
Definition updateUser (userData : User) : M St (option ClerkUser) :=
  response <- await (users_getUserList clerkClient [email userData])
                (EvGetUserList [email userData]) ;;
  match data response with
  | existing :: _ =>
      if differs existing userData
      then
        let params := updateUserParams userData in
        up <- await (users_updateUser clerkClient (id existing) params)
                (EvUpdateUser (id existing) params) ;;
        ret (Some up)
      else ret None
  | [] => ret None
  end.

Definition appendLog (payload : Obj) : M St unit := emit (EvAppendLog payload).

Definition cooldown : M St unit := emit (EvCooldown DELAY).

Definition rateLimitCooldown : M St unit := emit (EvRateLimitCooldown RETRY_DELAY).

(** [{ userId: userData.userId, ...error }]; a property whose value is
    [undefined] is not written to the log. *)
Definition logPayload (userData : Json) (error : Obj) : M St Obj :=
  match member userData "userId" with
  | inl typeError => throw typeError
  | inr (Some uid) => ret (obj_spread [("userId", uid)] error)
  | inr None => ret (obj_spread [] error)
  end.

(** The body of the [try] block. *)
Definition attempt (userData : Json) : M St unit :=
  match safeParse userData with
  | inl error => throw error
  | inr parsed =>
      createUser parsed ;;
      incr_migrated
  end.

(** The recursion on a rate-limit signal has no bound in the source:
    [fuel] bounds the number of invocations that the model follows. *)
Fixpoint processUserToClerk (fuel : nat) (userData : Json) : M St unit :=
  match fuel with
  | O => fun w => (Spent, w)
  | S fuel' =>
      try_catch (attempt userData)
        (fun error =>
           if strict_eq_num (obj_get "status" error) 422 then
             match safeParse userData with
             | inr parsed =>
                 up <- updateUser parsed ;;
                 match up with
                 | Some _ => incr_updated
                 | None => ret tt
                 end
             | inl _ => ret tt
             end
           else if strict_eq_num (obj_get "status" error) 429 then
             rateLimitCooldown ;;
             processUserToClerk fuel' userData
           else
             payload <- logPayload userData error ;;
             appendLog payload)
  end.

(** The [for ... of] loop of [main]. *)
Fixpoint migrateAll (fuel : nat) (offsetUsers : list Json) : M St unit :=
  match offsetUsers with
  | [] => ret tt
  | userData :: rest =>
      cooldown ;;
      processUserToClerk fuel userData ;;
      migrateAll fuel rest
  end.

Definition main (fuel : nat) (OFFSET : Num) (parsedUserData : list Json) : M St unit :=
  let offsetUsers := slice (nullish OFFSET 0%Z) parsedUserData in
  migrateAll fuel offsetUsers.

(** The world in which a run starts. *)
Definition start (s : St) : World St :=
  {| clerk := s; trace := []; migrated := 0; updated := 0 |}.

End Engine.

(** ** Reading a trace *)

Definition isLog (ev : Event) : bool :=
  match ev with EvAppendLog _ => true | _ => false end.

Definition isPacing (ev : Event) : bool :=
  match ev with EvCooldown _ => true | _ => false end.

Definition isRateLimitCooldown (ev : Event) : bool :=
  match ev with EvRateLimitCooldown _ => true | _ => false end.

Definition isCreate (ev : Event) : bool :=
  match ev with EvCreateUser _ _ => true | _ => false end.

Definition isUpdate (ev : Event) : bool :=
  match ev with EvUpdateUser _ _ _ => true | _ => false end.

(** A create call that the service fulfilled: an entity came to exist. *)
Definition isCreated (ev : Event) : bool :=
  match ev with EvCreateUser _ (inr _) => true | _ => false end.

Definition auditLog (t : list Event) : list Event := filter isLog t.

(* ================================================================== *)
(** * The paginated traversals of the export scripts *)

(** The argument of a list request; a field left out is [None]. *)
Record ListParams : Type := {
  q_offset : option nat;
  q_limit : option nat;
  q_orderBy : option string;
  q_organizationId : option string
}.

(** A traversal ends with the accumulated items or with the rejection of
    a request, and with the requests it issued, in order. *)
Definition Traversal (A : Type) : Type :=
  (Completion (list A) * list ListParams)%type.

Section Pagination.

Variable A : Type.

(** A list operation of the service. *)
Variable fetch : ListParams -> Answer (PaginatedResponse A).

(** The request at an offset; [None] is the request without [offset]. *)
Variable params : option nat -> ListParams.

Variable pageSize : nat.

(** src/backup.ts:
    [do { r = await list({offset, limit}); items.push(...r.data);
          hasMore = r.totalCount > items.length; offset = offset + limit }
     while (hasMore)] *)
Fixpoint doWhileFetch (fuel : nat) (offset : nat) (items : list A)
    (requests : list ListParams) : Traversal A :=
  match fuel with
  | O => (Spent, requests)
  | S fuel' =>
      let request := params (Some offset) in
      match fetch request with
      | inl error => (Threw error, requests ++ [request])
      | inr response =>
          let items' := items ++ data response in
          let hasMore := List.length items' <? totalCount response in
          let offset' := offset + pageSize in
          if hasMore
          then doWhileFetch fuel' offset' items' (requests ++ [request])
          else (Returned items', requests ++ [request])
      end
  end.

(** src/unnamed/part_000 and src/org_ids/orgs_get_ids.ts:
    [while (hasMore) { offset = offset + limit;
                       nextBatch = await list({offset, ...});
                       items.push(...nextBatch.data);
                       hasMore = total > items.length }]
    where [total] is the variable that the loop compares with. *)
Fixpoint whileFetch (fuel : nat) (total : nat) (hasMore : bool) (offset : nat)
    (items : list A) (requests : list ListParams) : Traversal A :=
  match fuel with
  | O => (Spent, requests)
  | S fuel' =>
      if hasMore then
        let offset' := offset + pageSize in
        let request := params (Some offset') in
        match fetch request with
        | inl error => (Threw error, requests ++ [request])
        | inr nextBatch =>
            let items' := items ++ data nextBatch in
            whileFetch fuel' total (List.length items' <? total) offset' items'
              (requests ++ [request])
        end
      else (Returned items, requests)
  end.

(** The first request, without an offset, and the loop after it.  The
    loop compares with [loopTotal total], where [total] is the count that
    the first answer reports. *)
Definition firstThenWhile (fuel : nat) (loopTotal : nat -> nat) : Traversal A :=
  let request := params None in
  match fetch request with
  | inl error => (Threw error, [request])
  | inr response =>
      let items := data response in
      let total := totalCount response in
      whileFetch fuel (loopTotal total) (List.length items <? total) 0 items
        [request]
  end.

End Pagination.

Arguments doWhileFetch {A} _ _ _ _ _ _ _.
Arguments whileFetch {A} _ _ _ _ _ _ _ _ _.
Arguments firstThenWhile {A} _ _ _ _ _.

(** The offset that a request asks for: the service starts at 0 when the
    request has none. *)
Definition offsetOf (request : ListParams) : nat := nullish (q_offset request) 0.

(** src/backup.ts, [main]: the three traversals. *)
Module Backup.
Section Main.

Variables UserT OrganizationT MembershipT : Type.
Variable getUserList : ListParams -> Answer (PaginatedResponse UserT).
Variable getOrganizationList :
  ListParams -> Answer (PaginatedResponse OrganizationT).
Variable getOrganizationMembershipList :
  ListParams -> Answer (PaginatedResponse MembershipT).

Definition limit : nat := 500.

Definition userParams (offset : option nat) : ListParams :=
  {| q_offset := offset; q_limit := Some limit;
     q_orderBy := Some "-created_at"; q_organizationId := None |}.

Definition orgParams (offset : option nat) : ListParams :=
  {| q_offset := offset; q_limit := Some limit;
     q_orderBy := Some "+created_at"; q_organizationId := None |}.

Definition memberParams (orgId : string) (offset : option nat) : ListParams :=
  {| q_offset := offset; q_limit := Some limit;
     q_orderBy := None; q_organizationId := Some orgId |}.

Definition retrieveUsers (fuel : nat) : Traversal UserT :=
  doWhileFetch getUserList userParams limit fuel 0 [] [].

Definition retrieveOrgs (fuel : nat) : Traversal OrganizationT :=
  doWhileFetch getOrganizationList orgParams limit fuel 0 [] [].

Definition retrieveMemberships (fuel : nat) (orgId : string) :
    Traversal MembershipT :=
  doWhileFetch getOrganizationMembershipList (memberParams orgId) limit
    fuel 0 [] [].

End Main.
End Backup.

(** src/unnamed/part_000, [main]: the traversal of the users. *)
Module UserBackup.
Section Main.

Variable UserT : Type.
Variable getUserList : ListParams -> Answer (PaginatedResponse UserT).

Definition limit : nat := 500.

Definition userParams (offset : option nat) : ListParams :=
  {| q_offset := offset; q_limit := Some limit;
     q_orderBy := Some "+created_at"; q_organizationId := None |}.

Definition retrieveUsers (fuel : nat) : Traversal UserT :=
  firstThenWhile getUserList userParams limit fuel (fun total => total).

End Main.
End UserBackup.

(** src/org_ids/orgs_get_ids.ts, [main] of the export: the traversals of
    the users and of the organizations.  The loop over the organizations
    compares with [totalUsers]. *)
Module OrgBackup.
Section Main.

Variables UserT OrganizationT : Type.
Variable getUserList : ListParams -> Answer (PaginatedResponse UserT).
Variable getOrganizationList :
  ListParams -> Answer (PaginatedResponse OrganizationT).

Definition limit : nat := 500.

Definition userParams (offset : option nat) : ListParams :=
  {| q_offset := offset; q_limit := Some limit;
     q_orderBy := Some "-created_at"; q_organizationId := None |}.

Definition orgParams (offset : option nat) : ListParams :=
  {| q_offset := offset; q_limit := Some limit;
     q_orderBy := Some "+created_at"; q_organizationId := None |}.

(** What the two traversals leave: the items and the requests made. *)
Record Exported : Type := {
  users : list UserT;
  userRequests : list ListParams;
  orgs : list OrganizationT;
  orgRequests : list ListParams
}.

(** The loop over the organizations, after the users' traversal has
    set [totalUsers]. *)
Definition retrieveOrgs (fuel : nat) (totalUsers : nat) :
    Traversal OrganizationT :=
  firstThenWhile getOrganizationList orgParams limit fuel
    (fun _ => totalUsers).

(** The users, then the organizations. *)
Definition main (fuel : nat) : Completion Exported :=
  let request := userParams None in
  match getUserList request with
  | inl error => Threw error
  | inr userResponse =>
      let users := data userResponse in
      let totalUsers := totalCount userResponse in
      match whileFetch getUserList userParams limit fuel totalUsers
              (List.length users <? totalUsers) 0 users [request] with
      | (Spent, _) => Spent
      | (Threw error, _) => Threw error
      | (Returned users', userRequests) =>
          match retrieveOrgs fuel totalUsers with
          | (Spent, _) => Spent
          | (Threw error, _) => Threw error
          | (Returned orgs', orgRequests) =>
              Returned {| users := users'; userRequests := userRequests;
                          orgs := orgs'; orgRequests := orgRequests |}
          end
      end
  end.

End Main.
End OrgBackup.

(** A service that holds a fixed collection and answers a list request
    with the page at its offset and the size of the collection; a request
    without [limit] gets the service's default of 10 items. *)
Definition pageOf {A : Type} (collection : list A) (request : ListParams) :
    Answer (PaginatedResponse A) :=
  inr {| data := firstn (nullish (q_limit request) 10)
                   (skipn (offsetOf request) collection);
         totalCount := List.length collection |}.

(** [ceiling (t / p)] *)
Definition ceilDiv (t p : nat) : nat := (t + p - 1) / p.

(* ================================================================== *)
(** * An in-memory identity service for concrete runs *)

(** The remote identity service is a third party's, outside the
    repository; section 6 of the specification lists the operations that
    the scripts use (create, list by email, update) and the two failure
    signals, status 422 for a conflict and status 429 for a rate limit.
    This stand-in keeps the created users in a list and rejects a create
    call with the next error of [faults] while there is one.  It only
    serves the concrete runs of the examples: the theorems hold for every
    [ClerkApi]. *)
Module MemClerk.

Record State : Type := {
  stored : list ClerkUser;
  faults : list Obj;
  orgCreationDefault : bool
}.

Definition conflict : Obj := [("status", JNum 422)].
Definition rateLimit : Obj := [("status", JNum 429)].
Definition serverError : Obj := [("status", JNum 500)].
Definition notFound : Obj := [("status", JNum 404)].

Definition hasEmail (emails : list string) (u : ClerkUser) : bool :=
  existsb (fun e => existsb (String.eqb e) (emailAddresses u)) emails.

(** A name as the service returns it: [null] when it was never set. *)
Definition nameValue (s : option string) : option Json :=
  match s with
  | Some x => Some (JStr x)
  | None => Some JNull
  end.

Definition metadataOf (m : PublicMetadata) : Obj :=
  [("agreedTerms", JBool (pm_agreedTerms m));
   ("emailConsent", JBool (pm_emailConsent m))]
  ++ match pm_org m with
     | Some o => [("org", JStr o)]
     | None => []
     end.

Definition create (p : CreateUserParams) (s : State) : Answer ClerkUser * State :=
  match faults s with
  | e :: rest =>
      (inl e, {| stored := stored s; faults := rest;
                 orgCreationDefault := orgCreationDefault s |})
  | [] =>
      if existsb (hasEmail (cu_emailAddress p)) (stored s)
      then (inl conflict, s)
      else
        let u := {| id := String.append "user_" (cu_externalId p);
                    emailAddresses := cu_emailAddress p;
                    externalId := Some (JStr (cu_externalId p));
                    firstName := nameValue (cu_firstName p);
                    lastName := nameValue (cu_lastName p);
                    publicMetadata := metadataOf (cu_publicMetadata p);
                    createOrganizationEnabled := orgCreationDefault s |} in
        (inr u, {| stored := stored s ++ [u]; faults := [];
                   orgCreationDefault := orgCreationDefault s |})
  end.

Definition listByEmail (emails : list string) (s : State) :
    Answer (PaginatedResponse ClerkUser) * State :=
  let found := filter (hasEmail emails) (stored s) in
  (inr {| data := found; totalCount := List.length found |}, s).

Definition revise (p : UpdateUserParams) (u : ClerkUser) : ClerkUser :=
  {| id := id u;
     emailAddresses := emailAddresses u;
     externalId := Some (JStr (uu_externalId p));
     firstName := nameValue (uu_firstName p);
     lastName := nameValue (uu_lastName p);
     publicMetadata := metadataOf (uu_publicMetadata p);
     createOrganizationEnabled := uu_createOrganizationEnabled p |}.

Definition update (userId : string) (p : UpdateUserParams) (s : State) :
    Answer ClerkUser * State :=
  match find (fun u => String.eqb (id u) userId) (stored s) with
  | Some u =>
      (inr (revise p u),
       {| stored := map (fun v => if String.eqb (id v) userId then revise p v else v)
                      (stored s);
          faults := faults s;
          orgCreationDefault := orgCreationDefault s |})
  | None => (inl notFound, s)
  end.

Definition api : ClerkApi State :=
  {| users_createUser := create;
     users_getUserList := listByEmail;
     users_updateUser := update |}.

(** An empty service that rejects the first create calls with [errors]. *)
Definition empty (errors : list Obj) (orgCreation : bool) : State :=
  {| stored := []; faults := errors; orgCreationDefault := orgCreation |}.

(** The record of the scenarios of the specification. *)
Definition jane : Json :=
  JObj [("userId", JStr "u1"); ("email", JStr "a@x.com");
        ("name", JStr "Jane Doe"); ("agreedTerms", JBool true)].

Definition janeUser : User :=
  {| userId := "u1"; email := "a@x.com"; name := Some "Jane Doe";
     location := None; agreedTerms := true |}.

Definition anyEmail (s : string) : bool := true.
Definition noIssues (raw : Json) : list Json := [].

(** One invocation of [processUserToClerk] against this service, with
    the delays that an empty environment gives. *)
Definition run (fuel : nat) (raw : Json) (w : World State) :
    Completion unit * World State :=
  processUserToClerk anyEmail noIssues (Some 10%Z) State api fuel raw w.

(** A whole run of [main] against this service, configured by an
    environment. *)
Definition migrate (env : Config.Env) (fuel : nat) (records : list Json)
    (s : State) : Completion unit * World State :=
  main anyEmail noIssues (Config.DELAY env) (Config.RETRY_DELAY env) State api
    fuel (Config.OFFSET env) records (start State s).

(** The entity that this service makes of the record [jane]. *)
Definition created (orgCreation : bool) : ClerkUser :=
  {| id := "user_u1";
     emailAddresses := ["a@x.com"];
     externalId := Some (JStr "u1");
     firstName := Some (JStr "Jane");
     lastName := Some (JStr "Doe");
     publicMetadata := [("agreedTerms", JBool true); ("emailConsent", JBool false)];
     createOrganizationEnabled := orgCreation |}.

(** The world after a first run has created [jane]. *)
Definition afterFirstPass (orgCreation : bool) : World State :=
  {| clerk := {| stored := [created orgCreation]; faults := [];
                 orgCreationDefault := orgCreation |};
     trace := [EvCreateUser (createUserParams janeUser) (inr (created orgCreation))];
     migrated := 1;
     updated := 0 |}.

End MemClerk.

(* ================================================================== *)
(** * The words of the specification about names *)

Fixpoint countChar (c : ascii) (s : string) : nat :=
  match s with
  | EmptyString => 0
  | String d rest => (if Ascii.eqb d c then 1 else 0) + countChar c rest
  end.

Fixpoint allWhite (s : string) : bool :=
  match s with
  | EmptyString => true
  | String c rest => isWhiteSpace c && allWhite rest
  end.

Definition startsWhite (s : string) : bool :=
  match s with
  | EmptyString => false
  | String c _ => isWhiteSpace c
  end.

Fixpoint endsWhite (s : string) : bool :=
  match s with
  | EmptyString => false
  | String c EmptyString => isWhiteSpace c
  | String _ rest => endsWhite rest
  end.

(** The name splitting as the specification words it, for every name: trim,
    split on single spaces, two tokens give first and last, any other count
    gives the trimmed string and no last name. *)
Definition splitName_as_specified (name : string) : option string * option string :=
  match split " "%char (trim name) with
  | [first; last] => (Some first, Some last)
  | _ => (Some (trim name), None)
  end.

(** A text field of the entity and of the record hold the same: the same
    string, or nothing on either side.  The entity holds nothing when the
    property is [null], as the service returns a name that was never set
    (the exports read it as [u.firstName || undefined]), or absent. *)
Definition sameText (ofEntity : option Json) (ofRecord : option string) : Prop :=
  match ofRecord with
  | Some x => ofEntity = Some (JStr x)
  | None => ofEntity = None \/ ofEntity = Some JNull
  end.

(** The existing entity agrees with the source record on the six diffed
    fields: external identifier, first name, last name, consent flag,
    organization hint, and the permission to create organizations, which
    the update switches off. *)
Definition agrees (existing : ClerkUser) (userData : User) : Prop :=
  externalId existing = Some (JStr (userId userData))
  /\ sameText (firstName existing) (fst (splitName (name userData)))
  /\ sameText (lastName existing) (snd (splitName (name userData)))
  /\ obj_get "agreedTerms" (publicMetadata existing)
     = Some (JBool (agreedTerms userData))
  /\ sameText (obj_get "org" (publicMetadata existing)) (orgOf userData)
  /\ createOrganizationEnabled existing = false.

(** A text field that the record does not have is [null] on the entity. *)
Definition nullWhereAbsent (existing : ClerkUser) (userData : User) : Prop :=
  (fst (splitName (name userData)) = None /\ firstName existing = Some JNull)
  \/ (snd (splitName (name userData)) = None /\ lastName existing = Some JNull)
  \/ (orgOf userData = None /\ obj_get "org" (publicMetadata existing) = Some JNull).

(** A record with its name or its location replaced. *)
Definition withName (n : option string) (u : User) : User :=
  {| userId := userId u; email := email u; name := n;
     location := location u; agreedTerms := agreedTerms u |}.

Definition withLocation (l : option string) (u : User) : User :=
  {| userId := userId u; email := email u; name := name u;
     location := l; agreedTerms := agreedTerms u |}.

(* ================================================================== *)
(** * Statements about runs *)

(** The world [w] after the service moved to [s], the events [evs]
    happened, and the counters grew by [m] and [u]. *)
Definition after {St : Type} (w : World St) (s : St) (evs : list Event)
    (m u : nat) : World St :=
  {| clerk := s; trace := trace w ++ evs;
     migrated := migrated w + m; updated := updated w + u |}.

(** The status of an error object is the number [n]. *)
Definition hasStatus (n : Z) (error : Obj) : bool :=
  strict_eq_num (obj_get "status" error) n.

(** The service rejects the create call [n] times in a row with a
    rate-limit signal, from the state [s] on: the events of these attempts
    with the cooldown after each, and the state that the service is left
    in; [None] when one of the [n] answers is something else. *)
Fixpoint rateLimited {St : Type} (clerkClient : ClerkApi St) (RETRY_DELAY : Num)
    (n : nat) (params : CreateUserParams) (s : St) : option (list Event * St) :=
  match n with
  | O => Some ([], s)
  | S k =>
      match users_createUser clerkClient params s with
      | (inl error, s') =>
          if hasStatus 429 error
          then match rateLimited clerkClient RETRY_DELAY k params s' with
               | Some (evs, s'') =>
                   Some (EvCreateUser params (inl error)
                           :: EvRateLimitCooldown RETRY_DELAY :: evs, s'')
               | None => None
               end
          else None
      | (inr _, _) => None
      end
  end.

Definition numEqb (a b : Num) : bool :=
  match a, b with
  | Some x, Some y => Z.eqb x y
  | None, None => true
  | _, _ => false
  end.

(** Every create call of the trace directly follows a pacing delay of
    [DELAY]: the claim that each attempt is paced. *)
Definition isPacingOf (DELAY : Num) (ev : option Event) : bool :=
  match ev with
  | Some (EvCooldown ms) => numEqb ms DELAY
  | _ => false
  end.

Fixpoint pacedBeforeEachCreate (DELAY : Num) (previous : option Event)
    (t : list Event) : bool :=
  match t with
  | [] => true
  | ev :: rest =>
      (if isCreate ev then isPacingOf DELAY previous else true)
      && pacedBeforeEachCreate DELAY (Some ev) rest
  end.

(** Every create call of the trace directly follows a pacing delay of
    [DELAY] or a rate-limit cooldown of [RETRY_DELAY]. *)
Definition isDelay (DELAY RETRY_DELAY : Num) (ev : option Event) : bool :=
  match ev with
  | Some (EvCooldown ms) => numEqb ms DELAY
  | Some (EvRateLimitCooldown ms) => numEqb ms RETRY_DELAY
  | _ => false
  end.

Fixpoint delayedBeforeEachCreate (DELAY RETRY_DELAY : Num)
    (previous : option Event) (t : list Event) : bool :=
  match t with
  | [] => true
  | ev :: rest =>
      (if isCreate ev then isDelay DELAY RETRY_DELAY previous else true)
      && delayedBeforeEachCreate DELAY RETRY_DELAY (Some ev) rest
  end.

(** Every rate-limit cooldown of the trace directly follows a create call
    that the service rejected with status 429. *)
Definition isRateLimitedCreate (ev : option Event) : bool :=
  match ev with
  | Some (EvCreateUser _ (inl error)) => hasStatus 429 error
  | _ => false
  end.

Fixpoint cooldownOnlyAfterRateLimit (previous : option Event) (t : list Event) : bool :=
  match t with
  | [] => true
  | ev :: rest =>
      (if isRateLimitCooldown ev then isRateLimitedCreate previous else true)
      && cooldownOnlyAfterRateLimit (Some ev) rest
  end.

(** The event before the next one, after the events [t]. *)
Fixpoint lastOr (previous : option Event) (t : list Event) : option Event :=
  match t with
  | [] => previous
  | ev :: rest => lastOr (Some ev) rest
  end.

(** The events of one invocation of [processUserToClerk], which follow
    the pacing delay of the record (or, in a re-invocation, a rate-limit
    cooldown): no pacing delay is among them; a create call is the first
    event or directly follows a rate-limit cooldown; a rate-limit cooldown
    directly follows a create call rejected with status 429. *)
Definition invocationEvents (DELAY RETRY_DELAY : Num) (evs : list Event) : Prop :=
  filter isPacing evs = []
  /\ (forall previous,
        isDelay DELAY RETRY_DELAY (Some previous) = true ->
        delayedBeforeEachCreate DELAY RETRY_DELAY (Some previous) evs = true)
  /\ (forall previous, cooldownOnlyAfterRateLimit previous evs = true).

(** The trace of a run of [main]: for each record in turn, the pacing
    delay and then the events of the record. *)
Definition pacedBlocks (DELAY : Num) (blocks : list (list Event)) : list Event :=
  List.concat (map (cons (EvCooldown DELAY)) blocks).

(** The number of list requests of a traversal of [t] items by pages of
    [p]: the first page is always asked for. *)
Definition requestsFor (t p : nat) : nat := Nat.max 1 (ceilDiv t p).

(* ================================================================== *)
(** * More statements about runs *)

(** An update call that the service fulfilled. *)
Definition isUpdated (ev : Event) : bool :=
  match ev with EvUpdateUser _ _ (inr _) => true | _ => false end.

(** A lookup directly follows a create call rejected with status 422. *)
Definition followsConflict (previous : option Event) : bool :=
  match previous with
  | Some (EvCreateUser _ (inl error)) => hasStatus 422 error
  | _ => false
  end.

(** An update of the entity [target] directly follows a fulfilled lookup
    whose first entity is [target]. *)
Definition followsLookupOf (target : string) (previous : option Event) : bool :=
  match previous with
  | Some (EvGetUserList _ (inr response)) =>
      match data response with
      | existing :: _ => String.eqb (id existing) target
      | [] => false
      end
  | _ => false
  end.

(** Every lookup of the trace follows a conflict and every update follows
    the lookup of the entity it updates. *)
Fixpoint lookupsInOrder (previous : option Event) (t : list Event) : bool :=
  match t with
  | [] => true
  | ev :: rest =>
      match ev with
      | EvGetUserList _ _ => followsConflict previous
      | EvUpdateUser target _ _ => followsLookupOf target previous
      | _ => true
      end
      && lookupsInOrder (Some ev) rest
  end.

(** The event is a call made for the record [u], or a rate-limit cooldown
    or a log entry. *)
Definition concerns (u : User) (ev : Event) : Prop :=
  match ev with
  | EvCreateUser params _ => params = createUserParams u
  | EvGetUserList emailAddress _ => emailAddress = [email u]
  | EvUpdateUser _ params _ => params = updateUserParams u
  | EvCooldown _ => False
  | EvRateLimitCooldown _ => True
  | EvAppendLog _ => True
  end.

(** The events that processing the raw record [raw] may leave: calls for
    the parsed record, or, when the record does not parse, at most a log
    entry. *)
Definition blockOf (isEmail : string -> bool) (zodIssues : Json -> list Json)
    (raw : Json) (evs : list Event) : Prop :=
  match safeParse isEmail zodIssues raw with
  | inr u => Forall (concerns u) evs
  | inl _ => evs = [] \/ exists payload, evs = [EvAppendLog payload]
  end.

(** What one record adds to the counters and to the log. *)
Definition countedOnce (evs : list Event) : Prop :=
  List.length (filter isCreated evs) + List.length (filter isUpdated evs)
  + List.length (auditLog evs) <= 1.

(** What one invocation of [processUserToClerk] on the raw record [raw]
    leaves in the trace, whatever its end. *)
Definition blockFacts (isEmail : string -> bool) (zodIssues : Json -> list Json)
    (raw : Json) (evs : list Event) : Prop :=
  countedOnce evs
  /\ (forall previous, lookupsInOrder previous evs = true)
  /\ blockOf isEmail zodIssues raw evs
  /\ filter isPacing evs = [].


(** A computation that reads of the world only the state of the service:
    run from any world, it does what it does from the world that starts at
    that state, and appends its events and adds its counts. *)
Definition framed {St A : Type} (m : M St A) : Prop :=
  forall w,
    m w = (fst (m (start St (clerk w))),
           after w (clerk (snd (m (start St (clerk w)))))
             (trace (snd (m (start St (clerk w)))))
             (migrated (snd (m (start St (clerk w)))))
             (updated (snd (m (start St (clerk w)))))).

(** A service without state that answers every create call with
    [created], every lookup with [looked] and every update with [revised]:
    like [MemClerk], it only serves concrete runs. *)
Module Scripted.

Definition api (created : Answer ClerkUser)
    (looked : Answer (PaginatedResponse ClerkUser)) (revised : Answer ClerkUser) :
    ClerkApi unit :=
  {| users_createUser := fun _ s => (created, s);
     users_getUserList := fun _ s => (looked, s);
     users_updateUser := fun _ _ s => (revised, s) |}.

(** A service that answers the create calls with the answers of a queue,
    one after the other, and with a conflict once the queue is empty;
    lookups and updates as [api]. *)
Definition queued (looked : Answer (PaginatedResponse ClerkUser))
    (revised : Answer ClerkUser) : ClerkApi (list (Answer ClerkUser)) :=
  {| users_createUser :=
       fun _ s =>
         match s with
         | answer :: rest => (answer, rest)
         | [] => (inl MemClerk.conflict, [])
         end;
     users_getUserList := fun _ s => (looked, s);
     users_updateUser := fun _ _ s => (revised, s) |}.

(** An entity as the service keeps it for a record without a name: the
    name fields are [null]. *)
Definition unnamed : ClerkUser :=
  {| id := "user_u3";
     emailAddresses := ["c@x.com"];
     externalId := Some (JStr "u3");
     firstName := Some JNull;
     lastName := Some JNull;
     publicMetadata := [("agreedTerms", JBool true); ("emailConsent", JBool false)];
     createOrganizationEnabled := false |}.

(** The record that [unnamed] was made of. *)
Definition carol : Json :=
  JObj [("userId", JStr "u3"); ("email", JStr "c@x.com"); ("agreedTerms", JBool true)].

Definition carolUser : User :=
  {| userId := "u3"; email := "c@x.com"; name := None;
     location := None; agreedTerms := true |}.

End Scripted.

(* ================================================================== *)
(** * Numerals and joined strings *)


(** [pieces.join(sep)] for a separator of one code unit. *)
Fixpoint join (sep : ascii) (pieces : list string) : string :=
  match pieces with
  | [] => EmptyString
  | [piece] => piece
  | piece :: rest => (piece ++ String sep (join sep rest))%string
  end.

(** The decimal numeral of a natural number, without sign, separators or
    leading zeros. *)
Definition decimal (n : nat) : string :=
  DecimalString.NilEmpty.string_of_uint (Nat.to_uint n).

Definition isDecimalDigit (c : ascii) : bool :=
  let n := nat_of_ascii c in (48 <=? n) && (n <=? 57).

(** What may follow a decimal numeral without being read by [parseInt]:
    nothing, or a character that is neither a digit nor the [x] of a
    hexadecimal prefix. *)
Definition endsNumeral (tail : string) : bool :=
  match tail with
  | EmptyString => true
  | String c _ =>
      negb (isDecimalDigit c) && negb (Ascii.eqb c "x") && negb (Ascii.eqb c "X")
  end.

(* ================================================================== *)
(** * Statements about traversals *)


(** The items of the page that a request is answered with; none when the
    request is rejected. *)
Definition pageData {A : Type} (fetch : ListParams -> Answer (PaginatedResponse A))
    (request : ListParams) : list A :=
  match fetch request with
  | inr response => data response
  | inl _ => []
  end.

(** The requests at the offsets [k P], [(k + 1) P], ..., [n] of them. *)
Definition requestsFrom (params : option nat -> ListParams) (P k n : nat) :
    list ListParams :=
  map (fun j => params (Some (j * P))) (seq k n).


(* ================================================================== *)
(** * src/org_ids/orgs_get_ids.ts: teams against organizations *)

Module Compare.

(** An entry of [team_ids.json] or of [org_ids.json]. *)
Record Entry : Type := {
  entry_id : string;
  entry_name : string
}.

(** [set.has(x)] *)
Definition has (set : list string) (x : string) : bool :=
  existsb (String.eqb x) set.

(** [set.add(x)]: a value that the set holds is not added again. *)
Definition add (set : list string) (x : string) : list string :=
  if has set x then set else set ++ [x].

(** [new Set(values)], as the list of its values in insertion order. *)
Definition setOf (values : list string) : list string :=
  fold_left add values [].

Definition teamNames (teams : list Entry) : list string :=
  setOf (map entry_name teams).

Definition orgNames (orgs : list Entry) : list string :=
  setOf (map entry_name orgs).

Definition onlyInTeams (teams orgs : list Entry) : list string :=
  setOf (filter (fun x => negb (has (orgNames orgs) x)) (teamNames teams)).

Definition onlyInOrgs (teams orgs : list Entry) : list string :=
  setOf (filter (fun x => negb (has (teamNames teams) x)) (orgNames orgs)).

Definition formatSQL (prismaId clerkId : string) : string :=
  ("UPDATE public.queries SET org_id = '" ++ clerkId
   ++ "' WHERE org_id = '" ++ prismaId ++ "';")%string.

(** The statements that the nested loops print, in order. *)
Definition statements (teams orgs : list Entry) : list string :=
  flat_map
    (fun team =>
       flat_map
         (fun org =>
            if String.eqb (entry_name team) (entry_name org)
            then [formatSQL (entry_id team) (entry_id org)]
            else [])
         orgs)
    teams.

End Compare.

(* ================================================================== *)
(** * The exports to CSV *)

(** [payload] or, when it is [null] or empty, the empty string. *)
Definition orEmpty (payload : option string) : string := nullish payload EmptyString.

(** src/unnamed/part_000, [main] after the traversal: the records are
    built and written, and the count that the script prints is read from
    the text beside the spinner, which both loops set to the index of the
    entry at hand. *)
Module UserExport.
Section Main.

Variables UserT RecordT : Type.

(** The object that the [map] callback builds of a user. *)
Variable toRecord : UserT -> RecordT.

(** [i.toLocaleString()] for an index: it depends on the locale. *)
Variable toLocaleString : nat -> string.

(** The CSV writer of the library. *)
Variable getHeaderString : option string.
Variable stringifyRecords : list RecordT -> option string.

(** [users.map((u, i) => { spinner.suffixText = i.toLocaleString(); ... })]:
    the records and the text beside the spinner. *)
Fixpoint mapUsers (i : nat) (users : list UserT) (suffixText : string) :
    list RecordT * string :=
  match users with
  | [] => ([], suffixText)
  | u :: rest =>
      let '(records, suffixText') := mapUsers (S i) rest (toLocaleString i) in
      (toRecord u :: records, suffixText')
  end.

(** [appendCSV(payload)] on the chunks appended to the file so far. *)
Definition appendCSV (payload : option string) (file : list string) : list string :=
  file ++ [orEmpty payload].

(** [records.forEach((r, i) => { spinner.suffixText = i.toLocaleString();
                                  appendCSV(csvWriter.stringifyRecords([r])) })] *)
Fixpoint writeRecords (i : nat) (records : list RecordT) (file : list string)
    (suffixText : string) : list string * string :=
  match records with
  | [] => (file, suffixText)
  | r :: rest =>
      writeRecords (S i) rest (appendCSV (stringifyRecords [r]) file)
        (toLocaleString i)
  end.

(** The chunks appended to the file and the value of [backedUp]. *)
Definition exportCsv (users : list UserT) : list string * Num :=
  let suffixText := EmptyString in
  let '(records, suffixText) := mapUsers 0 users suffixText in
  let file := appendCSV getHeaderString [] in
  let '(file, suffixText) := writeRecords 0 records file suffixText in
  let backedUp := parseInt suffixText in
  (file, backedUp).

End Main.
End UserExport.

(** src/backup.ts and src/org_ids/orgs_get_ids.ts, [main]: the memberships
    of every organization are retrieved, those without user data are left
    out, and the rows are written and counted. *)
Module MemberExport.

Record Organization : Type := {
  org_id : string;
  org_name : string
}.

Record PublicUserData : Type := {
  pud_userId : string;
  pud_identifier : string
}.

Record Membership : Type := {
  m_organization : Organization;
  m_publicUserData : option PublicUserData
}.

(** [OrgMembershipCSVRecord] *)
Record Row : Type := {
  orgId : string;
  orgName : string;
  userId : string;
  userEmail : string
}.

(** [!!s] for a string. *)
Definition truthy (s : string) : bool := negb (String.eqb s EmptyString).

(** [s] or, when it is [undefined] or empty, the empty string. *)
Definition orBlank (s : option string) : string :=
  match s with
  | Some x => if truthy x then x else EmptyString
  | None => EmptyString
  end.

(** [(m) => !!m.publicUserData && !!m.publicUserData.userId] *)
Definition hasUser (m : Membership) : bool :=
  match m_publicUserData m with
  | Some d => truthy (pud_userId d)
  | None => false
  end.

Definition rowOf (m : Membership) : Row :=
  {| orgId := org_id (m_organization m);
     orgName := org_name (m_organization m);
     userId := orBlank (option_map pud_userId (m_publicUserData m));
     userEmail := orBlank (option_map pud_identifier (m_publicUserData m)) |}.

Section Main.

Variable getOrganizationMembershipList :
  ListParams -> Answer (PaginatedResponse Membership).
Variable getHeaderString : option string.
Variable stringifyRecords : list Row -> option string.

(** The loop over the organizations. *)
Fixpoint collectRows (fuel : nat) (orgs : list Organization) (orgMemberRecords : list Row) :
    Completion (list Row) :=
  match orgs with
  | [] => Returned orgMemberRecords
  | o :: rest =>
      match fst (Backup.retrieveMemberships Membership getOrganizationMembershipList
                   fuel (org_id o)) with
      | Returned orgMemberships =>
          collectRows fuel rest
            (orgMemberRecords ++ map rowOf (filter hasUser orgMemberships))
      | Threw e => Threw e
      | Spent => Spent
      end
  end.

(** [orgMemberRecords.forEach((r, i) => { append(...); backedUpMemberships++ })] *)
Fixpoint writeRows (rows : list Row) (file : list string) (backedUpMemberships : nat) :
    list string * nat :=
  match rows with
  | [] => (file, backedUpMemberships)
  | r :: rest =>
      writeRows rest (file ++ [orEmpty (stringifyRecords [r])]) (S backedUpMemberships)
  end.

(** The chunks appended to the membership file and the final counter. *)
Definition exportMemberships (fuel : nat) (orgs : list Organization) :
    Completion (list string * nat) :=
  match collectRows fuel orgs [] with
  | Returned orgMemberRecords =>
      Returned (writeRows orgMemberRecords [orEmpty getHeaderString] 0)
  | Threw e => Threw e
  | Spent => Spent
  end.

End Main.
End MemberExport.

(* ================================================================== *)
(** * src/index.ts and src/org_ids/orgs_get_ids.ts: the check of the key *)

Inductive StartupError : Type :=
| KeyRequired
| DevelopmentInstance.

(** The two checks made when the module is loaded: the error thrown, or
    [None] when the script goes on. *)
Definition checkKey (SECRET_KEY IMPORT_TO_DEV_INSTANCE : option string) :
    option StartupError :=
  let IMPORT_TO_DEV := nullish IMPORT_TO_DEV_INSTANCE "false" in
  match SECRET_KEY with
  | None => Some KeyRequired
  | Some key =>
      if String.eqb key EmptyString then Some KeyRequired
      else if negb (strict_eq_str (option_map JStr (nth_error (split "_" key) 1))
                      (Some "live"))
              && String.eqb IMPORT_TO_DEV "false"
           then Some DevelopmentInstance
           else None
  end.

(* ================================================================== *)
(** * Facts about strings *)

Lemma split_length (sep : ascii) (s : string) :
  List.length (split sep s) = S (countChar sep s).
Proof.
  induction s as [|c rest IH]; simpl; [reflexivity|].
  destruct (Ascii.eqb c sep); simpl.
  - now rewrite IH.
  - destruct (split sep rest) as [|piece pieces]; simpl in *; lia.
Qed.

Lemma split_without_sep (sep : ascii) (s : string) :
  countChar sep s = 0 -> split sep s = [s].
Proof.
  induction s as [|c rest IH]; simpl; [reflexivity|].
  destruct (Ascii.eqb c sep); simpl; [discriminate|].
  intros H. now rewrite (IH H).
Qed.

Lemma split_at_sep (sep : ascii) (a b : string) :
  countChar sep a = 0 ->
  split sep (a ++ String sep b)%string = a :: split sep b.
Proof.
  induction a as [|c rest IH]; simpl.
  - intros _. now rewrite Ascii.eqb_refl.
  - destruct (Ascii.eqb c sep); simpl; [discriminate|].
    intros H. now rewrite (IH H).
Qed.

Lemma trimStart_decompose (s : string) :
  exists l, s = (l ++ trimStart s)%string /\ allWhite l = true.
Proof.
  induction s as [|c rest [l [Hl Hw]]]; simpl.
  - exists EmptyString. split; reflexivity.
  - destruct (isWhiteSpace c) eqn:Hc.
    + exists (String c l). simpl. rewrite Hc, Hw. split; [now rewrite <- Hl | reflexivity].
    + exists EmptyString. split; reflexivity.
Qed.

Lemma trimEnd_decompose (s : string) :
  exists r, s = (trimEnd s ++ r)%string /\ allWhite r = true.
Proof.
  induction s as [|c rest [r [Hr Hw]]]; simpl.
  - exists EmptyString. split; reflexivity.
  - destruct (trimEnd rest) as [|d kept] eqn:Hk.
    + destruct (isWhiteSpace c) eqn:Hc.
      * exists (String c r). simpl in *. rewrite Hc, Hw. split; [now rewrite <- Hr | reflexivity].
      * exists r. simpl in *. split; [now rewrite <- Hr | assumption].
    + exists r. simpl in *. split; [now rewrite <- Hr | assumption].
Qed.

Lemma trimStart_starts (s : string) : startsWhite (trimStart s) = false.
Proof.
  induction s as [|c rest IH]; simpl; [reflexivity|].
  destruct (isWhiteSpace c) eqn:Hc; [exact IH | simpl; exact Hc].
Qed.

Lemma trimEnd_starts (s : string) :
  startsWhite s = false -> startsWhite (trimEnd s) = false.
Proof.
  destruct s as [|c rest]; simpl; [reflexivity|].
  intros Hc. destruct (trimEnd rest); [rewrite Hc|]; simpl; exact Hc.
Qed.

Lemma trimEnd_ends (s : string) : endsWhite (trimEnd s) = false.
Proof.
  induction s as [|c rest IH]; simpl; [reflexivity|].
  destruct (trimEnd rest) as [|d kept] eqn:Hk.
  - destruct (isWhiteSpace c) eqn:Hc; simpl; [reflexivity | exact Hc].
  - simpl in *. exact IH.
Qed.

(** [trim] removes white space at both ends and nothing else. *)
Lemma trim_decompose (s : string) :
  exists l r, s = (l ++ trim s ++ r)%string
              /\ allWhite l = true /\ allWhite r = true
              /\ startsWhite (trim s) = false /\ endsWhite (trim s) = false.
Proof.
  destruct (trimStart_decompose s) as [l [Hl Hlw]].
  destruct (trimEnd_decompose (trimStart s)) as [r [Hr Hrw]].
  exists l, r. unfold trim. repeat split; try assumption.
  - now rewrite <- Hr.
  - apply trimEnd_starts, trimStart_starts.
  - apply trimEnd_ends.
Qed.

Lemma strict_eq_str_true (v : option Json) (s : option string) :
  strict_eq_str v s = true <-> v = option_map JStr s.
Proof.
  destruct v as [[| | |x| |]|], s as [y|]; simpl; split; intros H;
    try discriminate; try reflexivity.
  - apply String.eqb_eq in H. now subst.
  - injection H as ->. apply String.eqb_refl.
Qed.

Lemma strict_eq_bool_true (v : option Json) (b : bool) :
  strict_eq_bool v b = true <-> v = Some (JBool b).
Proof.
  destruct v as [[|x| | | |]|]; simpl; split; intros H; try discriminate.
  - apply Bool.eqb_prop in H. now subst.
  - injection H as ->. apply Bool.eqb_reflx.
Qed.

Lemma splitName_not_quote (s : string) :
  s <> QUOTE ->
  splitName (Some s) =
    if List.length (split " "%char (trim s)) =? 2
    then (nth_error (split " "%char (trim s)) 0, nth_error (split " "%char (trim s)) 1)
    else (Some (trim s), None).
Proof.
  intros Hq. unfold splitName. simpl.
  destruct (String.eqb s QUOTE) eqn:E; [|reflexivity].
  apply String.eqb_eq in E. contradiction.
Qed.

(* ================================================================== *)
(** * The record transformer *)

(** C6, as the claim has it: the name splitting of the source is not the
    one of the specification at the name that is one quotation mark, which
    the source maps to no first name at all. *)
Lemma splitName_quote_differs :
  splitName (Some QUOTE) = (None, None)
  /\ splitName_as_specified QUOTE = (Some QUOTE, None)
  /\ splitName (Some QUOTE) <> splitName_as_specified QUOTE.
Proof. repeat split; try reflexivity. discriminate. Qed.

(** C6, amended: for every name other than the single quotation mark, the
    name is trimmed (white space is removed at both ends, nothing else) and
    split on single spaces; two tokens become first and last name, and when
    the trimmed name does not hold exactly one space (one token, or three
    and more) it becomes the first name whole and there is no last name. *)
Theorem splitName_tokens (name : string) (Hq : name <> QUOTE) :
  splitName (Some name) = splitName_as_specified name
  /\ (exists l r, name = (l ++ trim name ++ r)%string
                  /\ allWhite l = true /\ allWhite r = true
                  /\ startsWhite (trim name) = false
                  /\ endsWhite (trim name) = false)
  /\ (forall first last,
         countChar " " first = 0 -> countChar " " last = 0 ->
         trim name = (first ++ String " " last)%string ->
         splitName (Some name) = (Some first, Some last))
  /\ (countChar " " (trim name) <> 1 ->
      splitName (Some name) = (Some (trim name), None)).
Proof.
  rewrite (splitName_not_quote name Hq).
  split; [|split; [apply trim_decompose|split]].
  - unfold splitName_as_specified.
    destruct (split " " (trim name)) as [|a [|b [|c rest]]]; reflexivity.
  - intros first last Hf Hl Ht.
    rewrite Ht, (split_at_sep " " first last Hf), (split_without_sep " " last Hl).
    reflexivity.
  - intros Hn. rewrite split_length.
    destruct (S (countChar " " (trim name)) =? 2) eqn:E; [|reflexivity].
    apply Nat.eqb_eq in E. lia.
Qed.

Lemma splitName_tokens_witness :
  "  Ada Lovelace " <> QUOTE
  /\ splitName (Some "  Ada Lovelace ") = (Some "Ada", Some "Lovelace")
  /\ splitName (Some "Ada") = (Some "Ada", None)
  /\ splitName (Some "Ada King Lovelace") = (Some "Ada King Lovelace", None).
Proof.
  assert (H : "  Ada Lovelace " <> QUOTE) by discriminate.
  split; [exact H|]. split.
  - apply (proj1 (proj2 (proj2 (splitName_tokens "  Ada Lovelace " H))));
      reflexivity.
  - split; reflexivity.
Defined.

(** C7: a name that is the single quotation mark gives payloads without
    first and last name, and a location that is the single quotation mark
    gives payloads without organization hint; the payloads and the
    comparison of [updateUser] are those of the record without the field. *)
Theorem quote_field_is_absent (u : User) :
  (name u = Some QUOTE ->
     cu_firstName (createUserParams u) = None
     /\ cu_lastName (createUserParams u) = None
     /\ uu_firstName (updateUserParams u) = None
     /\ uu_lastName (updateUserParams u) = None
     /\ createUserParams u = createUserParams (withName None u)
     /\ updateUserParams u = updateUserParams (withName None u)
     /\ forall existing, differs existing u = differs existing (withName None u))
  /\ (location u = Some QUOTE ->
        pm_org (cu_publicMetadata (createUserParams u)) = None
        /\ pm_org (uu_publicMetadata (updateUserParams u)) = None
        /\ createUserParams u = createUserParams (withLocation None u)
        /\ updateUserParams u = updateUserParams (withLocation None u)
        /\ forall existing,
             differs existing u = differs existing (withLocation None u)).
Proof.
  destruct u as [uid mail nm loc agreed]; simpl. split.
  - intros ->. unfold createUserParams, updateUserParams, differs, orgOf; simpl.
    repeat split; reflexivity.
  - intros ->. unfold createUserParams, updateUserParams, differs, orgOf; simpl.
    destruct (splitName nm) as [f l]. repeat split; reflexivity.
Qed.

Lemma quote_field_is_absent_witness :
  let u := {| userId := "u1"; email := "a@x.com"; name := Some QUOTE;
              location := Some QUOTE; agreedTerms := true |} in
  cu_firstName (createUserParams u) = None
  /\ pm_org (cu_publicMetadata (createUserParams u)) = None.
Proof.
  intros u. split.
  - exact (proj1 (proj1 (quote_field_is_absent u) eq_refl)).
  - exact (proj1 (proj2 (quote_field_is_absent u) eq_refl)).
Defined.

(* ================================================================== *)
(** * Reconciliation, retries and the audit log *)

Section EngineFacts.

Variable isEmail : string -> bool.
Variable zodIssues : Json -> list Json.
Variable DELAY : Num.
Variable RETRY_DELAY : Num.
Variable St : Type.
Variable clerkClient : ClerkApi St.

Local Abbreviation process := (processUserToClerk isEmail zodIssues RETRY_DELAY St clerkClient).
Local Abbreviation parse := (safeParse isEmail zodIssues).

Lemma after_after (w : World St) s1 s2 evs1 evs2 m1 m2 u1 u2 :
  after (after w s1 evs1 m1 u1) s2 evs2 m2 u2
  = after w s2 (evs1 ++ evs2) (m1 + m2) (u1 + u2).
Proof.
  unfold after; simpl. f_equal; [apply eq_sym, app_assoc | lia | lia].
Qed.

Lemma hasStatus_429_not_422 (error : Obj) :
  hasStatus 429 error = true -> hasStatus 422 error = false.
Proof.
  unfold hasStatus, strict_eq_num.
  destruct (obj_get "status" error) as [[| |z| | |]|]; try discriminate.
  intros H. apply Z.eqb_eq in H. now subst.
Qed.

Lemma attempt_answer (raw : Json) (u : User) (w : World St) :
  parse raw = inr u ->
  attempt isEmail zodIssues St clerkClient raw w =
    match users_createUser clerkClient (createUserParams u) (clerk w) with
    | (inr e, s') =>
        (Returned tt, after w s' [EvCreateUser (createUserParams u) (inr e)] 1 0)
    | (inl error, s') =>
        (Threw error, after w s' [EvCreateUser (createUserParams u) (inl error)] 0 0)
    end.
Proof.
  intros Hp. unfold attempt. rewrite Hp.
  unfold bind, createUser, await, incr_migrated, after.
  destruct (users_createUser clerkClient (createUserParams u) (clerk w)) as [[error|e] s'];
    simpl; repeat f_equal; lia.
Qed.

Lemma process_created (fuel : nat) raw u w e s' :
  parse raw = inr u ->
  users_createUser clerkClient (createUserParams u) (clerk w) = (inr e, s') ->
  process (S fuel) raw w =
    (Returned tt, after w s' [EvCreateUser (createUserParams u) (inr e)] 1 0).
Proof.
  intros Hp Hc. simpl. unfold try_catch.
  rewrite (attempt_answer raw u w Hp), Hc. reflexivity.
Qed.

Lemma process_rate_limited (fuel : nat) raw u w error s' :
  parse raw = inr u ->
  users_createUser clerkClient (createUserParams u) (clerk w) = (inl error, s') ->
  hasStatus 429 error = true ->
  process (S fuel) raw w =
    process fuel raw
      (after w s' [EvCreateUser (createUserParams u) (inl error);
                   EvRateLimitCooldown RETRY_DELAY] 0 0).
Proof.
  intros Hp Hc H429. simpl. unfold try_catch.
  rewrite (attempt_answer raw u w Hp), Hc.
  fold (hasStatus 422 error). fold (hasStatus 429 error).
  rewrite (hasStatus_429_not_422 error H429), H429.
  unfold bind, rateLimitCooldown, emit, after; simpl.
  rewrite <- app_assoc. reflexivity.
Qed.


Lemma parse_userId (raw : Json) (u : User) :
  parse raw = inr u -> member raw "userId" = inr (Some (JStr (userId u))).
Proof.
  unfold safeParse. destruct raw as [| | | | |props]; try discriminate.
  simpl.
  destruct (obj_get "userId" props) as [[| | |uid| |]|]; simpl; try discriminate.
  destruct (parseString (obj_get "email" props)) as [mail|]; try discriminate.
  destruct (parseOptionalString (obj_get "name" props)) as [nm|]; try discriminate.
  destruct (parseOptionalString (obj_get "location" props)) as [loc|]; try discriminate.
  destruct (parseBoolean (obj_get "agreedTerms" props)) as [agreed|]; try discriminate.
  destruct (isEmail mail); try discriminate.
  intros H. injection H as <-. reflexivity.
Qed.

Lemma updateUser_answer (u : User) (w : World St) :
  updateUser St clerkClient u w =
    match users_getUserList clerkClient [email u] (clerk w) with
    | (inl error, s1) =>
        (Threw error, after w s1 [EvGetUserList [email u] (inl error)] 0 0)
    | (inr response, s1) =>
        match data response with
        | existing :: _ =>
            if differs existing u then
              match users_updateUser clerkClient (id existing) (updateUserParams u) s1 with
              | (inl error, s2) =>
                  (Threw error,
                        after w s2 [EvGetUserList [email u] (inr response);
                                    EvUpdateUser (id existing) (updateUserParams u) (inl error)] 0 0)
              | (inr up, s2) =>
                  (Returned (Some up),
                        after w s2 [EvGetUserList [email u] (inr response);
                                    EvUpdateUser (id existing) (updateUserParams u) (inr up)] 0 0)
              end
            else (Returned None, after w s1 [EvGetUserList [email u] (inr response)] 0 0)
        | [] => (Returned None, after w s1 [EvGetUserList [email u] (inr response)] 0 0)
        end
    end.
Proof.
  unfold updateUser, bind, await, ret, after.
  destruct (users_getUserList clerkClient [email u] (clerk w)) as [[error|response] s1];
    simpl; rewrite ?Nat.add_0_r; [reflexivity|].
  destruct (data response) as [|existing others]; [reflexivity|].
  destruct (differs existing u); [|reflexivity].
  simpl.
  destruct (users_updateUser clerkClient (id existing) (updateUserParams u) s1)
    as [[error|up] s2]; simpl; rewrite <- app_assoc; reflexivity.
Qed.

Lemma process_conflict (fuel : nat) raw u w error s1 :
  parse raw = inr u ->
  users_createUser clerkClient (createUserParams u) (clerk w) = (inl error, s1) ->
  hasStatus 422 error = true ->
  process (S fuel) raw w =
    match updateUser St clerkClient u
            (after w s1 [EvCreateUser (createUserParams u) (inl error)] 0 0) with
    | (Returned (Some _), w2) => (Returned tt, after w2 (clerk w2) [] 0 1)
    | (Returned None, w2) => (Returned tt, w2)
    | (Threw e, w2) => (Threw e, w2)
    | (Spent, w2) => (Spent, w2)
    end.
Proof.
  intros Hp Hc H422. simpl. unfold try_catch.
  rewrite (attempt_answer raw u w Hp), Hc.
  fold (hasStatus 422 error). rewrite H422, Hp.
  unfold bind.
  destruct (updateUser St clerkClient u
              (after w s1 [EvCreateUser (createUserParams u) (inl error)] 0 0))
    as [[[up|]|e|] w2]; try reflexivity.
  unfold incr_updated, after; simpl. rewrite app_nil_r, Nat.add_0_r. reflexivity.
Qed.

Lemma obj_set_other (k k' : string) (v : Json) (o : Obj) :
  String.eqb k' k = false -> obj_get k (obj_set k' v o) = obj_get k o.
Proof.
  intros Hk. induction o as [|[k0 v0] rest IH]; simpl.
  - rewrite String.eqb_sym, Hk. reflexivity.
  - destruct (String.eqb k' k0) eqn:E; simpl.
    + apply String.eqb_eq in E. subst k0.
      rewrite String.eqb_sym, Hk. reflexivity.
    + destruct (String.eqb k k0); [reflexivity | exact IH].
Qed.

Lemma obj_spread_keeps (k : string) (extra base : Obj) :
  obj_get k extra = None -> obj_get k (obj_spread base extra) = obj_get k base.
Proof.
  unfold obj_spread. revert base.
  induction extra as [|[k0 v0] rest IH]; simpl; intros base H; [reflexivity|].
  destruct (String.eqb k k0) eqn:E; [discriminate|].
  rewrite (IH _ H). apply obj_set_other. now rewrite String.eqb_sym.
Qed.

Lemma obj_get_absent (k : string) (o : Obj) :
  ~ In k (map fst o) -> obj_get k o = None.
Proof.
  induction o as [|[k0 v0] rest IH]; simpl; intros H; [reflexivity|].
  destruct (String.eqb_spec k k0) as [->|Hne]; [exfalso; auto|].
  apply IH. intros Hin. auto.
Qed.

Lemma obj_set_same (k : string) (v : Json) (o : Obj) :
  obj_get k (obj_set k v o) = Some v.
Proof.
  induction o as [|[k0 v0] rest IH]; simpl.
  - now rewrite String.eqb_refl.
  - destruct (String.eqb k k0) eqn:E; simpl; rewrite E; [reflexivity | exact IH].
Qed.

(** A property that [extra] has is, in the spread, that of [extra]. *)
Lemma obj_spread_wins (k : string) (v : Json) (extra base : Obj) :
  NoDup (map fst extra) ->
  obj_get k extra = Some v -> obj_get k (obj_spread base extra) = Some v.
Proof.
  unfold obj_spread. revert base.
  induction extra as [|[k0 v0] rest IH]; simpl; intros base Hnd H; [discriminate|].
  inversion Hnd as [|? ? Hnot Hrest]; subst.
  destruct (String.eqb_spec k k0) as [->|Hne].
  - injection H as ->.
    pose proof (obj_spread_keeps k0 rest (obj_set k0 v base)
                  (obj_get_absent k0 rest Hnot)) as Hkeep.
    unfold obj_spread in Hkeep. rewrite Hkeep. apply obj_set_same.
  - apply (IH _ Hrest H).
Qed.

Lemma process_other (fuel : nat) raw u w error s1 :
  parse raw = inr u ->
  users_createUser clerkClient (createUserParams u) (clerk w) = (inl error, s1) ->
  hasStatus 422 error = false ->
  hasStatus 429 error = false ->
  process (S fuel) raw w =
    (Returned tt,
          after w s1 [EvCreateUser (createUserParams u) (inl error);
                      EvAppendLog (obj_spread [("userId", JStr (userId u))] error)] 0 0).
Proof.
  intros Hp Hc H422 H429. simpl. unfold try_catch.
  rewrite (attempt_answer raw u w Hp), Hc.
  fold (hasStatus 422 error). fold (hasStatus 429 error). rewrite H422, H429.
  unfold bind, logPayload. rewrite (parse_userId raw u Hp).
  unfold ret, appendLog, emit, after; simpl. rewrite <- app_assoc. reflexivity.
Qed.


Lemma rateLimited_events (n : nat) p s evs s1 :
  rateLimited clerkClient RETRY_DELAY n p s = Some (evs, s1) ->
  filter isRateLimitCooldown evs = repeat (EvRateLimitCooldown RETRY_DELAY) n
  /\ auditLog evs = []
  /\ filter isCreated evs = []
  /\ List.length (filter isCreate evs) = n.
Proof.
  revert s evs. induction n as [|k IH]; simpl; intros s evs H.
  - injection H as <- _. repeat split; reflexivity.
  - destruct (users_createUser clerkClient p s) as [[error|e] s']; [|discriminate].
    destruct (hasStatus 429 error); [|discriminate].
    destruct (rateLimited clerkClient RETRY_DELAY k p s') as [[evs' s'']|] eqn:E;
      [|discriminate].
    injection H as <- ->. destruct (IH _ _ E) as [H1 [H2 [H3 H4]]].
    unfold auditLog in *. simpl. rewrite H1, H2, H3, H4. repeat split; reflexivity.
Qed.

(** C3: when the create call of a record is rejected with a rate-limit
    signal (status 429) [n] times in a row and then fulfilled, processing the
    record sleeps the configured retry delay exactly [n] times, once after
    each rejection, makes [n + 1] create calls, ends with the record counted
    as created and writes nothing to the audit log.  This holds for every
    [n]: no number of retries is the last one.  The claim's case is
    [n = 2]. *)
Theorem rate_limited_then_created (n fuel : nat) raw u w evs s1 e s2 :
  parse raw = inr u ->
  rateLimited clerkClient RETRY_DELAY n (createUserParams u) (clerk w) = Some (evs, s1) ->
  users_createUser clerkClient (createUserParams u) s1 = (inr e, s2) ->
  n < fuel ->
  let done := evs ++ [EvCreateUser (createUserParams u) (inr e)] in
  process fuel raw w = (Returned tt, after w s2 done 1 0)
  /\ filter isRateLimitCooldown done = repeat (EvRateLimitCooldown RETRY_DELAY) n
  /\ List.length (filter isCreate done) = n + 1
  /\ auditLog done = [].
Proof.
  intros Hp Hr Hc Hf done. split.
  - subst done. revert fuel w evs Hr Hf.
    induction n as [|k IH]; intros fuel w evs Hr Hf;
      (destruct fuel as [|fuel]; [lia|]); simpl in Hr.
    + injection Hr as <- <-. apply (process_created fuel raw u w e s2 Hp Hc).
    + destruct (users_createUser clerkClient (createUserParams u) (clerk w))
        as [[error|e0] s'] eqn:Hc0; [|discriminate].
      destruct (hasStatus 429 error) eqn:H429; [|discriminate].
      destruct (rateLimited clerkClient RETRY_DELAY k (createUserParams u) s')
        as [[evs' s'']|] eqn:E; [|discriminate].
      injection Hr as <- <-.
      rewrite (process_rate_limited fuel raw u w error s' Hp Hc0 H429).
      rewrite (IH fuel (after w s' [EvCreateUser (createUserParams u) (inl error);
                                    EvRateLimitCooldown RETRY_DELAY] 0 0) evs' E ltac:(lia)).
      rewrite after_after. reflexivity.
  - destruct (rateLimited_events n _ _ _ _ Hr) as [H1 [H2 [H3 H4]]].
    subst done. unfold auditLog in *. rewrite !filter_app, length_app, H1, H2, H4.
    simpl. rewrite app_nil_r. repeat split; reflexivity.
Qed.

Local Abbreviation loop := (migrateAll isEmail zodIssues DELAY RETRY_DELAY St clerkClient).

Lemma migrateAll_cons (fuel : nat) raw rest (w : World St) :
  loop fuel (raw :: rest) w =
    match process fuel raw (after w (clerk w) [EvCooldown DELAY] 0 0) with
    | (Returned _, w') => loop fuel rest w'
    | (Threw e, w') => (Threw e, w')
    | (Spent, w') => (Spent, w')
    end.
Proof.
  cbn [migrateAll]. unfold bind, cooldown, emit, after. simpl.
  rewrite !Nat.add_0_r. reflexivity.
Qed.

(** C8, amended: when the create call of a record is rejected with an
    error whose status is neither 422 nor 429, processing the record appends
    one entry to the audit log, made of the record's [userId] and the
    properties of the error, makes no second create call, leaves both
    counters as they were and returns, and the loop of [main] goes on with
    the next record.  The entry is keyed by the record's identifier when
    the error has no [userId] property of its own; when it has one, the
    spread copies it over the record's and the entry is keyed by the
    error's. *)
Theorem other_error_is_logged_once (fuel : nat) raw u w error s1 rest :
  parse raw = inr u ->
  users_createUser clerkClient (createUserParams u) (clerk w) = (inl error, s1) ->
  hasStatus 422 error = false ->
  hasStatus 429 error = false ->
  let entry := obj_spread [("userId", JStr (userId u))] error in
  let done := [EvCreateUser (createUserParams u) (inl error); EvAppendLog entry] in
  process (S fuel) raw w = (Returned tt, after w s1 done 0 0)
  /\ auditLog done = [EvAppendLog entry]
  /\ (obj_get "userId" error = None -> obj_get "userId" entry = Some (JStr (userId u)))
  /\ (NoDup (map fst error) ->
      forall own, obj_get "userId" error = Some own -> obj_get "userId" entry = Some own)
  /\ List.length (filter isCreate done) = 1
  /\ migrated (after w s1 done 0 0) = migrated w
  /\ updated (after w s1 done 0 0) = updated w
  /\ migrateAll isEmail zodIssues DELAY RETRY_DELAY St clerkClient (S fuel) (raw :: rest) w
     = migrateAll isEmail zodIssues DELAY RETRY_DELAY St clerkClient (S fuel) rest
         (after w s1 (EvCooldown DELAY :: done) 0 0).
Proof.
  intros Hp Hc H422 H429 entry done.
  split; [exact (process_other fuel raw u w error s1 Hp Hc H422 H429)|].
  split; [reflexivity|]. split.
  - intros Hk. unfold entry. rewrite (obj_spread_keeps _ _ _ Hk). reflexivity.
  - split; [intros Hnd own Hk; exact (obj_spread_wins _ _ _ _ Hnd Hk)|].
    split; [reflexivity|]. split; [simpl; lia|]. split; [simpl; lia|].
    rewrite migrateAll_cons.
    rewrite (process_other fuel raw u (after w (clerk w) [EvCooldown DELAY] 0 0)
               error s1 Hp Hc H422 H429).
    rewrite after_after. reflexivity.
Qed.

(** C10: when the create call is rejected with a conflict signal (status
    422) and the lookup by the record's email returns no entity, the record
    is skipped: no entity is created, no update call is made, nothing is
    written to the audit log, and both counters stay as they were. *)
Theorem conflict_without_entity_is_skipped (fuel : nat) raw u w error s1 response s2 :
  parse raw = inr u ->
  users_createUser clerkClient (createUserParams u) (clerk w) = (inl error, s1) ->
  hasStatus 422 error = true ->
  users_getUserList clerkClient [email u] s1 = (inr response, s2) ->
  data response = [] ->
  let done := [EvCreateUser (createUserParams u) (inl error);
               EvGetUserList [email u] (inr response)] in
  process (S fuel) raw w = (Returned tt, after w s2 done 0 0)
  /\ filter isCreated done = []
  /\ filter isUpdate done = []
  /\ auditLog done = []
  /\ migrated (after w s2 done 0 0) = migrated w
  /\ updated (after w s2 done 0 0) = updated w.
Proof.
  intros Hp Hc H422 Hl Hd done.
  split; [|repeat split; simpl; lia].
  rewrite (process_conflict fuel raw u w error s1 Hp Hc H422).
  rewrite updateUser_answer. simpl. rewrite Hl, Hd.
  rewrite after_after. reflexivity.
Qed.

Lemma sameText_strict (v : option Json) (s : option string) :
  strict_eq_str v s = true <-> sameText v s /\ ~ (s = None /\ v = Some JNull).
Proof.
  rewrite strict_eq_str_true. unfold sameText. destruct s as [x|]; simpl.
  - split; [intros ->; split; [reflexivity | intros [H _]; discriminate]
           | intros [H _]; exact H].
  - split.
    + intros ->. split; [now left | intros [_ H]; discriminate].
    + intros [[H | H] Hn]; [exact H | exfalso; apply Hn; auto].
Qed.

(** The condition of [updateUser] in the words of the specification: no
    update is made exactly when the entity agrees with the record and none
    of the fields that the record lacks is [null] on the entity. *)
Lemma differs_false_iff (existing : ClerkUser) (u : User) :
  differs existing u = false <-> agrees existing u /\ ~ nullWhereAbsent existing u.
Proof.
  unfold agrees, nullWhereAbsent, differs.
  destruct (splitName (name u)) as [f l]. simpl.
  rewrite !orb_false_iff, !negb_false_iff.
  rewrite (strict_eq_str_true (externalId existing)), !sameText_strict,
    strict_eq_bool_true.
  simpl. tauto.
Qed.

(** Where a diffed field differs, the condition of [updateUser] holds. *)
Lemma differs_of_disagreement (existing : ClerkUser) (u : User) :
  ~ agrees existing u -> differs existing u = true.
Proof.
  intros Hno. destruct (differs existing u) eqn:E; [reflexivity|].
  apply differs_false_iff in E. destruct E as [Ha _]. contradiction.
Qed.

(** After a create call rejected with a conflict signal, the invocation
    makes no further create call and leaves [migrated] as it was, whatever
    the lookup and the update answer. *)
Lemma conflict_creates_nothing (fuel : nat) raw u (w : World St) error s1 :
  parse raw = inr u ->
  users_createUser clerkClient (createUserParams u) (clerk w) = (inl error, s1) ->
  hasStatus 422 error = true ->
  exists evs,
    trace (snd (process (S fuel) raw w))
    = trace w ++ EvCreateUser (createUserParams u) (inl error) :: evs
    /\ filter isCreate evs = []
    /\ migrated (snd (process (S fuel) raw w)) = migrated w.
Proof.
  intros Hp Hc H422.
  rewrite (process_conflict fuel raw u w error s1 Hp Hc H422).
  rewrite updateUser_answer. simpl clerk.
  destruct (users_getUserList clerkClient [email u] s1) as [[lerr|response] s2];
    [|destruct (data response) as [|existing others];
      [|destruct (differs existing u);
        [destruct (users_updateUser clerkClient (id existing)
                     (updateUserParams u) s2) as [[uerr|up] s3]|]]];
    rewrite ?after_after; (eexists; split; [reflexivity|]);
    simpl; split; try reflexivity; lia.
Qed.

(** C2, amended: a record whose create call succeeded is reconciled
    again and the second create call is rejected with a conflict signal
    (status 422).  The second pass never creates a duplicate: it makes no
    further create call and leaves [migrated] as it was, whatever the lookup
    and the update answer.  When the lookup by email returns the entity and
    some diffed field differs, the pass makes one update call; that call
    fulfilled, [updated] grows by one and the pass returns; that call
    rejected, no counter changes and the error ends the run.  When the
    entity agrees on every field, none of the fields that the record lacks
    being [null] on the entity, the pass makes no update call and the
    counters stay as they were. *)
Theorem second_pass_updates_or_leaves (fuel : nat) raw u w e s1 error s2 :
  parse raw = inr u ->
  users_createUser clerkClient (createUserParams u) (clerk w) = (inr e, s1) ->
  users_createUser clerkClient (createUserParams u) s1 = (inl error, s2) ->
  hasStatus 422 error = true ->
  let p := createUserParams u in
  let q := updateUserParams u in
  let w1 := after w s1 [EvCreateUser p (inr e)] 1 0 in
  let conflict := EvCreateUser p (inl error) in
  process (S fuel) raw w = (Returned tt, w1)
  /\ (exists evs,
        trace (snd (process (S fuel) raw w1)) = trace w1 ++ conflict :: evs
        /\ filter isCreate evs = []
        /\ migrated (snd (process (S fuel) raw w1)) = migrated w1)
  /\ (forall response s3 existing others,
        users_getUserList clerkClient [email u] s2 = (inr response, s3) ->
        data response = existing :: others ->
        let looked := [conflict; EvGetUserList [email u] (inr response)] in
        (~ agrees existing u ->
         (forall up s4,
            users_updateUser clerkClient (id existing) q s3 = (inr up, s4) ->
            process (S fuel) raw w1
            = (Returned tt,
               after w1 s4 (looked ++ [EvUpdateUser (id existing) q (inr up)]) 0 1))
         /\ (forall rejection s4,
               users_updateUser clerkClient (id existing) q s3 = (inl rejection, s4) ->
               process (S fuel) raw w1
               = (Threw rejection,
                  after w1 s4
                    (looked ++ [EvUpdateUser (id existing) q (inl rejection)]) 0 0)))
        /\ (agrees existing u -> ~ nullWhereAbsent existing u ->
            process (S fuel) raw w1 = (Returned tt, after w1 s3 looked 0 0)
            /\ filter isUpdate looked = [])).
Proof.
  intros Hp Hc1 Hc2 H422 p q w1 conflict.
  split; [exact (process_created fuel raw u w e s1 Hp Hc1)|].
  assert (Hc2' : users_createUser clerkClient (createUserParams u) (clerk w1)
                 = (inl error, s2)) by exact Hc2.
  split; [exact (conflict_creates_nothing fuel raw u w1 error s2 Hp Hc2' H422)|].
  intros response s3 existing others Hl Hd looked.
  pose proof (process_conflict fuel raw u w1 error s2 Hp Hc2' H422) as Hrun.
  rewrite updateUser_answer in Hrun. simpl clerk in Hrun. rewrite Hl, Hd in Hrun.
  split.
  - intros Hno. apply differs_of_disagreement in Hno. rewrite Hno in Hrun.
    split.
    + intros up s4 Hu. rewrite Hrun. fold q. rewrite Hu, !after_after. reflexivity.
    + intros rejection s4 Hu. rewrite Hrun. fold q. rewrite Hu, !after_after.
      reflexivity.
  - intros Ha Hnull. split; [|reflexivity].
    rewrite (proj2 (differs_false_iff existing u) (conj Ha Hnull)) in Hrun.
    rewrite Hrun, !after_after. reflexivity.
Qed.


Lemma delayed_app (previous : option Event) (t1 t2 : list Event) :
  delayedBeforeEachCreate DELAY RETRY_DELAY previous (t1 ++ t2)
  = delayedBeforeEachCreate DELAY RETRY_DELAY previous t1
    && delayedBeforeEachCreate DELAY RETRY_DELAY (lastOr previous t1) t2.
Proof.
  revert previous. induction t1 as [|ev rest IH]; intros previous; simpl.
  - reflexivity.
  - rewrite IH. apply andb_assoc.
Qed.

Lemma cooled_app (previous : option Event) (t1 t2 : list Event) :
  cooldownOnlyAfterRateLimit previous (t1 ++ t2)
  = cooldownOnlyAfterRateLimit previous t1
    && cooldownOnlyAfterRateLimit (lastOr previous t1) t2.
Proof.
  revert previous. induction t1 as [|ev rest IH]; intros previous; simpl.
  - reflexivity.
  - rewrite IH. apply andb_assoc.
Qed.

Lemma numEqb_refl (n : Num) : numEqb n n = true.
Proof. destruct n as [z|]; simpl; [apply Z.eqb_refl | reflexivity]. Qed.

Lemma zodError_status (raw : Json) (n : Z) : hasStatus n (zodError zodIssues raw) = false.
Proof. reflexivity. Qed.

Lemma process_invalid (fuel : nat) raw error (w : World St) :
  parse raw = inl error ->
  exists res evs,
    process (S fuel) raw w = (res, after w (clerk w) evs 0 0)
    /\ (evs = [] \/ exists payload, evs = [EvAppendLog payload]).
Proof.
  intros Hp.
  assert (He : error = zodError zodIssues raw).
  { unfold safeParse in Hp.
    repeat match type of Hp with
           | match ?x with _ => _ end = _ => destruct x
           | (if ?x then _ else _) = _ => destruct x
           end; congruence. }
  subst error. simpl. unfold try_catch, attempt. rewrite Hp. unfold throw. simpl.
  unfold bind, logPayload.
  assert (Hw : after w (clerk w) [] 0 0 = w).
  { unfold after. destruct w; simpl. rewrite app_nil_r, !Nat.add_0_r. reflexivity. }
  destruct (member raw "userId") as [typeError|[uid|]];
    unfold throw, ret, appendLog, emit; simpl.
  - exists (Threw typeError), []. rewrite Hw. auto.
  - eexists (Returned tt), [_]. split; [|right; eexists; reflexivity].
    unfold after. rewrite !Nat.add_0_r. reflexivity.
  - eexists (Returned tt), [_]. split; [|right; eexists; reflexivity].
    unfold after. rewrite !Nat.add_0_r. reflexivity.
Qed.

Lemma process_events (fuel : nat) raw (w : World St) res w' :
  process fuel raw w = (res, w') ->
  exists evs, trace w' = trace w ++ evs /\ invocationEvents DELAY RETRY_DELAY evs.
Proof.
  revert w. induction fuel as [|fuel IH]; intros w H.
  { injection H as _ <-. exists []. rewrite app_nil_r.
    repeat split; reflexivity. }
  destruct (parse raw) as [zerr|u] eqn:Hp.
  - destruct (process_invalid fuel raw zerr w Hp) as [res0 [evs [Hrun Hevs]]].
    rewrite Hrun in H. injection H as _ <-. exists evs. split; [reflexivity|].
    destruct Hevs as [-> | [payload ->]]; repeat split; reflexivity.
  - destruct (users_createUser clerkClient (createUserParams u) (clerk w))
      as [[error|e] s1] eqn:Hc.
    + destruct (hasStatus 422 error) eqn:H422.
      * rewrite (process_conflict fuel raw u w error s1 Hp Hc H422) in H.
        rewrite updateUser_answer in H. simpl clerk in H.
        destruct (users_getUserList clerkClient [email u] s1) as [[lerr|response] s2];
          [|destruct (data response) as [|existing others];
            [|destruct (differs existing u);
              [destruct (users_updateUser clerkClient (id existing)
                           (updateUserParams u) s2) as [[uerr|up] s3]|]]];
          rewrite ?after_after in H; injection H as _ <-;
          (eexists; split; [reflexivity|]); repeat split; intros previous;
          simpl; rewrite ?andb_true_r; auto.
      * destruct (hasStatus 429 error) eqn:H429.
        -- rewrite (process_rate_limited fuel raw u w error s1 Hp Hc H429) in H.
           destruct (IH _ H) as [evs [Ht [Hp1 [Hp2 Hp3]]]].
           exists (EvCreateUser (createUserParams u) (inl error)
                     :: EvRateLimitCooldown RETRY_DELAY :: evs).
           split; [rewrite Ht; simpl; rewrite <- app_assoc; reflexivity|].
           repeat split.
           ++ simpl. exact Hp1.
           ++ intros previous Hd. simpl. rewrite Hp2.
              ** simpl in Hd. rewrite Hd. reflexivity.
              ** simpl. apply numEqb_refl.
           ++ intros previous. simpl. rewrite H429, Hp3. reflexivity.
        -- rewrite (process_other fuel raw u w error s1 Hp Hc H422 H429) in H.
           injection H as _ <-. eexists; split; [reflexivity|].
           repeat split; intros previous; simpl; rewrite ?andb_true_r; auto.
    + rewrite (process_created fuel raw u w e s1 Hp Hc) in H.
      injection H as _ <-. eexists; split; [reflexivity|].
      repeat split; intros previous; simpl; rewrite ?andb_true_r; auto.
Qed.

Lemma loop_events (fuel : nat) (records : list Json) (w : World St) res w' :
  loop fuel records w = (res, w') ->
  exists blocks,
    trace w' = trace w ++ pacedBlocks DELAY blocks
    /\ Forall (invocationEvents DELAY RETRY_DELAY) blocks
    /\ List.length blocks <= List.length records
    /\ (res = Returned tt -> List.length blocks = List.length records).
Proof.
  revert w. induction records as [|raw rest IH]; intros w H.
  - injection H as <- <-. exists []. simpl. rewrite app_nil_r. repeat split; auto.
  - rewrite migrateAll_cons in H.
    destruct (process fuel raw (after w (clerk w) [EvCooldown DELAY] 0 0))
      as [[[]|e|] w1] eqn:Hrun.
    + destruct (process_events _ _ _ _ _ Hrun) as [evs1 [Ht1 Hinv]].
      destruct (IH _ H) as [blocks [Ht2 [Hall [Hle Hn]]]].
      exists (evs1 :: blocks). simpl in Ht1. unfold pacedBlocks in *. simpl.
      split; [rewrite Ht2, Ht1, <- !app_assoc; reflexivity|].
      split; [constructor; assumption|]. split; [lia|].
      intros Hres. now rewrite (Hn Hres).
    + injection H as <- <-.
      destruct (process_events _ _ _ _ _ Hrun) as [evs1 [Ht1 Hinv]].
      exists [evs1]. simpl in Ht1. unfold pacedBlocks. simpl. rewrite app_nil_r.
      split; [rewrite Ht1, <- !app_assoc; reflexivity|].
      split; [constructor; [assumption | constructor]|]. split; [lia|]. discriminate.
    + injection H as <- <-.
      destruct (process_events _ _ _ _ _ Hrun) as [evs1 [Ht1 Hinv]].
      exists [evs1]. simpl in Ht1. unfold pacedBlocks. simpl. rewrite app_nil_r.
      split; [rewrite Ht1, <- !app_assoc; reflexivity|].
      split; [constructor; [assumption | constructor]|]. split; [lia|]. discriminate.
Qed.

Lemma pacedBlocks_delayed (blocks : list (list Event)) :
  Forall (invocationEvents DELAY RETRY_DELAY) blocks ->
  (forall previous,
     delayedBeforeEachCreate DELAY RETRY_DELAY previous (pacedBlocks DELAY blocks) = true)
  /\ (forall previous,
        cooldownOnlyAfterRateLimit previous (pacedBlocks DELAY blocks) = true)
  /\ List.length (filter isPacing (pacedBlocks DELAY blocks)) = List.length blocks.
Proof.
  unfold pacedBlocks.
  induction 1 as [|evs blocks [Hn [Hd Hc]] _ [IHd [IHc IHn]]]; simpl.
  - repeat split.
  - split; [|split].
    + intros previous. rewrite delayed_app, Hd, IHd; [reflexivity|].
      simpl. apply numEqb_refl.
    + intros previous. rewrite cooled_app, Hc, IHc. reflexivity.
    + rewrite filter_app, Hn. simpl. now rewrite IHn.
Qed.

(** C9, amended: the trace of a run of [main] is, for each record in turn,
    one pacing delay of [DELAY] followed by the events of the record, among
    which there is no pacing delay: there a create call is the first event,
    the record's first attempt, or directly follows a rate-limit cooldown
    of [RETRY_DELAY], which itself directly follows a create call rejected
    with status 429, and is then the re-invocation.  So every create call of
    the run directly follows a delay, the pacing delay before a first
    attempt and the rate-limit cooldown alone before a re-invocation, and a
    run that returns has slept the pacing delay once for each record.  All
    but the last holds of every run, also of one that throws or that the
    fuel cuts short. *)
Theorem pacing_once_per_record (fuel : nat) (OFFSET : Num) (records : list Json)
    (s : St) :
  let run := main isEmail zodIssues DELAY RETRY_DELAY St clerkClient fuel OFFSET
               records (start St s) in
  let offsetUsers := slice (nullish OFFSET 0%Z) records in
  (exists blocks,
     trace (snd run) = pacedBlocks DELAY blocks
     /\ Forall (invocationEvents DELAY RETRY_DELAY) blocks
     /\ List.length blocks <= List.length offsetUsers
     /\ (fst run = Returned tt -> List.length blocks = List.length offsetUsers))
  /\ delayedBeforeEachCreate DELAY RETRY_DELAY None (trace (snd run)) = true
  /\ cooldownOnlyAfterRateLimit None (trace (snd run)) = true
  /\ (fst run = Returned tt ->
      List.length (filter isPacing (trace (snd run))) = List.length offsetUsers).
Proof.
  intros run offsetUsers. unfold main in run.
  destruct (loop_events fuel offsetUsers (start St s)
              (fst run) (snd run) (surjective_pairing run))
    as [blocks [Ht [Hall [Hle Hn]]]].
  simpl in Ht. destruct (pacedBlocks_delayed blocks Hall) as [Hd [Hc Hp]].
  split; [exists blocks; auto|]. rewrite Ht.
  split; [apply Hd|]. split; [apply Hc|].
  intros Hres. rewrite Hp. exact (Hn Hres).
Qed.

End EngineFacts.

(** ** Concrete runs *)

(** Two rate-limit rejections, then the record is created: two cooldowns
    of the retry delay, nothing logged. *)
Lemma rate_limited_then_created_witness :
  exists w',
    MemClerk.run 3 MemClerk.jane
      (start MemClerk.State (MemClerk.empty [MemClerk.rateLimit; MemClerk.rateLimit] false))
    = (Returned tt, w')
    /\ migrated w' = 1 /\ updated w' = 0
    /\ filter isRateLimitCooldown (trace w')
       = [EvRateLimitCooldown (Some 10%Z); EvRateLimitCooldown (Some 10%Z)]
    /\ auditLog (trace w') = [].
Proof.
  destruct (rate_limited_then_created MemClerk.anyEmail MemClerk.noIssues (Some 10%Z)
              MemClerk.State MemClerk.api 2 3 MemClerk.jane MemClerk.janeUser
              (start MemClerk.State
                 (MemClerk.empty [MemClerk.rateLimit; MemClerk.rateLimit] false))
              _ _ _ _ eq_refl eq_refl eq_refl ltac:(lia))
    as [Hrun [Hcool [_ Hlog]]].
  eexists. split; [exact Hrun|]. split; [reflexivity|]. split; [reflexivity|].
  split; [exact Hcool | exact Hlog].
Defined.

(** A create call rejected with status 500: one log entry, keyed [u1]. *)
Lemma other_error_is_logged_once_witness :
  exists w',
    MemClerk.run 1 MemClerk.jane
      (start MemClerk.State (MemClerk.empty [MemClerk.serverError] false))
    = (Returned tt, w')
    /\ auditLog (trace w')
       = [EvAppendLog [("userId", JStr "u1"); ("status", JNum 500)]]
    /\ migrated w' = 0 /\ updated w' = 0.
Proof.
  destruct (other_error_is_logged_once MemClerk.anyEmail MemClerk.noIssues
              (Some 1%Z) (Some 10%Z) MemClerk.State MemClerk.api 0
              MemClerk.jane MemClerk.janeUser
              (start MemClerk.State (MemClerk.empty [MemClerk.serverError] false))
              _ _ [] eq_refl eq_refl eq_refl eq_refl)
    as [Hrun [Hlog _]].
  eexists. split; [exact Hrun|]. split; [exact Hlog|]. split; reflexivity.
Defined.

(** A conflict signal from a service that stores nobody: the record is
    skipped. *)
Lemma conflict_without_entity_is_skipped_witness :
  exists w',
    MemClerk.run 1 MemClerk.jane
      (start MemClerk.State (MemClerk.empty [MemClerk.conflict] false))
    = (Returned tt, w')
    /\ MemClerk.stored (clerk w') = []
    /\ auditLog (trace w') = []
    /\ migrated w' = 0 /\ updated w' = 0.
Proof.
  destruct (conflict_without_entity_is_skipped MemClerk.anyEmail MemClerk.noIssues
              (Some 10%Z) MemClerk.State MemClerk.api 0
              MemClerk.jane MemClerk.janeUser
              (start MemClerk.State (MemClerk.empty [MemClerk.conflict] false))
              _ _ _ _ eq_refl eq_refl eq_refl eq_refl eq_refl)
    as [Hrun [_ [_ [Hlog _]]]].
  eexists. split; [exact Hrun|]. split; [reflexivity|]. split; [exact Hlog|].
  split; reflexivity.
Defined.

(** C8, as the claim has it: an error that carries a [userId] of its own.
    One entry is logged, and it is keyed by the error's identifier, not by
    the record's. *)
Lemma error_with_userId_keys_the_entry :
  exists w' entry,
    MemClerk.run 1 MemClerk.jane
      (start MemClerk.State
         (MemClerk.empty [[("status", JNum 500); ("userId", JStr "someone_else")]] false))
    = (Returned tt, w')
    /\ auditLog (trace w') = [EvAppendLog entry]
    /\ obj_get "userId" entry = Some (JStr "someone_else")
    /\ obj_get "userId" entry <> Some (JStr (userId MemClerk.janeUser)).
Proof.
  eexists. eexists. split; [reflexivity|]. split; [reflexivity|].
  split; [reflexivity | discriminate].
Qed.

(** C2, as the claim has it: the create call of the record succeeded, the
    second one is rejected with a conflict signal, the entity found may
    create organizations, so a diffed field differs, and the update call is
    rejected with a rate-limit signal.  The second pass does not resolve to
    an update: [updated] stays 0 and the error ends the run. *)
Lemma rejected_update_is_not_counted :
  exists w1 w2,
    processUserToClerk MemClerk.anyEmail MemClerk.noIssues (Some 10%Z) _
      (Scripted.queued (inr {| data := [MemClerk.created true]; totalCount := 1 |})
         (inl MemClerk.rateLimit))
      1 MemClerk.jane (start _ [inr (MemClerk.created true)])
    = (Returned tt, w1)
    /\ migrated w1 = 1
    /\ ~ agrees (MemClerk.created true) MemClerk.janeUser
    /\ processUserToClerk MemClerk.anyEmail MemClerk.noIssues (Some 10%Z) _
         (Scripted.queued (inr {| data := [MemClerk.created true]; totalCount := 1 |})
            (inl MemClerk.rateLimit))
         1 MemClerk.jane w1
       = (Threw MemClerk.rateLimit, w2)
    /\ List.length (filter isUpdate (trace w2)) = 1
    /\ updated w2 = 0.
Proof.
  eexists. eexists. split; [reflexivity|]. split; [reflexivity|].
  split; [intros [_ [_ [_ [_ [_ H]]]]]; discriminate H|].
  split; [reflexivity|]. split; reflexivity.
Qed.

(** The same record twice.  Where new users may create organizations,
    the entity differs from the record and the second pass updates it;
    where they may not, the entity agrees and nothing is updated.  The
    service holds one entity either way. *)
Lemma second_pass_updates_or_leaves_witness :
  (exists w1 w2,
     MemClerk.run 1 MemClerk.jane (start MemClerk.State (MemClerk.empty [] true))
     = (Returned tt, w1)
     /\ MemClerk.run 1 MemClerk.jane w1 = (Returned tt, w2)
     /\ migrated w2 = 1 /\ updated w2 = 1
     /\ List.length (MemClerk.stored (clerk w2)) = 1)
  /\ (exists w1 w2,
        MemClerk.run 1 MemClerk.jane (start MemClerk.State (MemClerk.empty [] false))
        = (Returned tt, w1)
        /\ MemClerk.run 1 MemClerk.jane w1 = (Returned tt, w2)
        /\ migrated w2 = 1 /\ updated w2 = 0
        /\ List.length (MemClerk.stored (clerk w2)) = 1).
Proof.
  split.
  - destruct (second_pass_updates_or_leaves MemClerk.anyEmail MemClerk.noIssues
                (Some 10%Z) MemClerk.State MemClerk.api 0
                MemClerk.jane MemClerk.janeUser
                (start MemClerk.State (MemClerk.empty [] true))
                _ _ _ _ eq_refl eq_refl eq_refl eq_refl)
      as [Hfirst [_ Hfound]].
    destruct (Hfound _ _ (MemClerk.created true) [] eq_refl eq_refl) as [Hdiffers _].
    assert (Hno : ~ agrees (MemClerk.created true) MemClerk.janeUser)
      by (intros [_ [_ [_ [_ [_ H]]]]]; discriminate H).
    destruct (Hdiffers Hno) as [Hfulfilled _].
    eexists. eexists. split; [exact Hfirst|].
    split; [exact (Hfulfilled _ _ eq_refl)|]. repeat split.
  - destruct (second_pass_updates_or_leaves MemClerk.anyEmail MemClerk.noIssues
                (Some 10%Z) MemClerk.State MemClerk.api 0
                MemClerk.jane MemClerk.janeUser
                (start MemClerk.State (MemClerk.empty [] false))
                _ _ _ _ eq_refl eq_refl eq_refl eq_refl)
      as [Hfirst [_ Hfound]].
    destruct (Hfound _ _ (MemClerk.created false) [] eq_refl eq_refl) as [_ Hsame].
    assert (Ha : agrees (MemClerk.created false) MemClerk.janeUser)
      by (unfold agrees; simpl; repeat split; try reflexivity; left; reflexivity).
    assert (Hnull : ~ nullWhereAbsent (MemClerk.created false) MemClerk.janeUser)
      by (intros [[H _] | [[H _] | [_ H]]]; discriminate H).
    destruct (Hsame Ha Hnull) as [Hsecond _].
    eexists. eexists. split; [exact Hfirst|]. split; [exact Hsecond|].
    repeat split.
Defined.

(** C5: a record without a name, migrated and then reconciled twice more
    against the service that stored it.  The service keeps the name fields
    of the entity as [null], so the entity agrees with the record on every
    diffed field, and yet each later pass makes an update call and counts
    it; the entity is the same after as before. *)
Lemma agreeing_nameless_entity_is_updated :
  exists w1 w2 w3,
    MemClerk.run 1 Scripted.carol (start MemClerk.State (MemClerk.empty [] false))
    = (Returned tt, w1)
    /\ MemClerk.stored (clerk w1) = [Scripted.unnamed]
    /\ agrees Scripted.unnamed Scripted.carolUser
    /\ MemClerk.run 1 Scripted.carol w1 = (Returned tt, w2)
    /\ MemClerk.run 1 Scripted.carol w2 = (Returned tt, w3)
    /\ List.length (filter isUpdate (trace w3)) = 2
    /\ migrated w3 = 1
    /\ updated w3 = 2
    /\ MemClerk.stored (clerk w3) = [Scripted.unnamed].
Proof.
  pose (w0 := start MemClerk.State (MemClerk.empty [] false)).
  let w1 := eval vm_compute in (snd (MemClerk.run 1 Scripted.carol w0)) in
  let w2 := eval vm_compute in (snd (MemClerk.run 1 Scripted.carol w1)) in
  let w3 := eval vm_compute in (snd (MemClerk.run 1 Scripted.carol w2)) in
  exists w1, w2, w3.
  split; [reflexivity|]. split; [reflexivity|].
  split; [unfold agrees, sameText; simpl; repeat split; try reflexivity;
          first [left; reflexivity | right; reflexivity]|].
  split; [reflexivity|]. split; [reflexivity|].
  split; [reflexivity|]. split; [reflexivity|].
  split; reflexivity.
Qed.

(** The defaults are written with a digit separator, which [parseInt]
    does not read: the delays of an empty environment are 1 and 10. *)
Lemma default_delays :
  Config.DELAY Config.unset = Some 1%Z
  /\ Config.RETRY_DELAY Config.unset = Some 10%Z
  /\ Config.OFFSET Config.unset = Some 0%Z.
Proof. repeat split; reflexivity. Qed.

(** C9, as the claim has it: one record whose first create call is rejected
    with a rate-limit signal.  Two create calls are made and one pacing
    delay is slept; the second create call follows the rate-limit cooldown,
    not a pacing delay. *)
Lemma retry_follows_no_pacing_delay :
  exists w',
    MemClerk.migrate Config.unset 2 [MemClerk.jane]
      (MemClerk.empty [MemClerk.rateLimit] false)
    = (Returned tt, w')
    /\ List.length (filter isCreate (trace w')) = 2
    /\ List.length (filter isPacing (trace w')) = 1
    /\ pacedBeforeEachCreate (Config.DELAY Config.unset) None (trace w') = false.
Proof. eexists. split; [reflexivity|]. repeat split. Qed.

(** The same run: each create call follows a delay, and the pacing delay
    was slept once. *)
Lemma pacing_once_per_record_witness :
  exists w',
    MemClerk.migrate Config.unset 2 [MemClerk.jane]
      (MemClerk.empty [MemClerk.rateLimit] false)
    = (Returned tt, w')
    /\ delayedBeforeEachCreate (Config.DELAY Config.unset)
         (Config.RETRY_DELAY Config.unset) None (trace w') = true
    /\ List.length (filter isPacing (trace w')) = 1.
Proof.
  eexists. split; [reflexivity|].
  destruct (pacing_once_per_record MemClerk.anyEmail MemClerk.noIssues
              (Config.DELAY Config.unset) (Config.RETRY_DELAY Config.unset)
              MemClerk.State MemClerk.api 2 (Config.OFFSET Config.unset)
              [MemClerk.jane] (MemClerk.empty [MemClerk.rateLimit] false))
    as [_ [Hdelay [_ Hcount]]].
  split; [exact Hdelay | exact (Hcount eq_refl)].
Defined.

(* ================================================================== *)
(** * The paginated traversals *)

Lemma ceilDiv_exact (t p k : nat) :
0 < p -> k * p < t -> t <= (k + 1) * p -> ceilDiv t p = k + 1.
Proof.
intros Hp Hlo Hhi. unfold ceilDiv.
symmetry. apply Nat.div_unique with (r := t + p - 1 - (k + 1) * p); nia.
Qed.

Lemma ceilDiv_zero (p : nat) : 0 < p -> ceilDiv 0 p = 0.
Proof. intros Hp. unfold ceilDiv. apply Nat.div_small. lia. Qed.

Lemma ceilDiv_above (t p k : nat) : 0 < p -> k * p < t -> k < ceilDiv t p.
Proof.
intros Hp Hlo. unfold ceilDiv.
apply Nat.div_le_lower_bound; nia.
Qed.

Section PaginationFacts.

Variable A : Type.
Variable fetch : ListParams -> Answer (PaginatedResponse A).
Variable params : option nat -> ListParams.
Variables P T : nat.
Hypothesis P_positive : 0 < P.

(** Every request is answered, the total is [T] in every answer, and the
    page at an offset holds [P] items, or what is left of [T] when that is
    less. *)
Hypothesis stable :
  forall o, exists r,
    fetch (params o) = inr r
    /\ totalCount r = T
    /\ List.length (data r) = Nat.min P (T - nullish o 0).

Local Abbreviation pagesOf := (requestsFor T P).

(** One iteration of the [do ... while] loop: it goes on to the page at
    [offset + P] exactly when the total of the answer exceeds the count
    of the items accumulated with this answer. *)
Lemma doWhileFetch_next_page (fuel offset : nat) (items : list A)
    (requests : list ListParams) (r : PaginatedResponse A) :
  fetch (params (Some offset)) = inr r ->
  let items' := items ++ data r in
  let requests' := requests ++ [params (Some offset)] in
  (List.length items' < totalCount r ->
     doWhileFetch fetch params P (S fuel) offset items requests
     = doWhileFetch fetch params P fuel (offset + P) items' requests')
  /\ (totalCount r <= List.length items' ->
        doWhileFetch fetch params P (S fuel) offset items requests
        = (Returned items', requests')).
Proof.
  intros Hr items' requests'. simpl. rewrite Hr. fold items' requests'. split; intros H.
  - apply Nat.ltb_lt in H. rewrite H. reflexivity.
  - apply Nat.ltb_ge in H. rewrite H. reflexivity.
Qed.

(** The [do ... while] loop from its [k]-th iteration on. *)
Lemma doWhileFetch_from (fuel k : nat) (items : list A) (requests : list ListParams) :
  List.length items = k * P ->
  k * P < T \/ k = 0 ->
  T - k * P < fuel ->
  exists items',
    doWhileFetch fetch params P fuel (k * P) items requests
    = (Returned items',
            requests ++ map (fun j => params (Some (j * P))) (seq k (pagesOf - k)))
    /\ List.length items' = T
    /\ k < pagesOf.
Proof.
  revert k items requests.
  induction fuel as [|fuel IH]; intros k items requests Hlen Hk Hfuel; [lia|].
  simpl. destruct (stable (Some (k * P))) as [r [Hr [Ht Hd]]]. simpl in Hd.
  rewrite Hr, Ht, length_app, Hd, Hlen.
  destruct (k * P + Nat.min P (T - k * P) <? T) eqn:E.
  - apply Nat.ltb_lt in E.
    assert (Hnext : (k + 1) * P < T) by nia.
    destruct (IH (k + 1) (items ++ data r) (requests ++ [params (Some (k * P))]))
      as [items' [Hrun [Hlen' Hpages]]].
    + rewrite length_app, Hd, Hlen. nia.
    + left. exact Hnext.
    + nia.
    + exists items'. replace (k * P + P) with ((k + 1) * P) by lia.
      rewrite Hrun. split; [|split; [exact Hlen' | lia]].
      replace (pagesOf - k) with (S (pagesOf - (k + 1))) by lia.
      simpl. rewrite <- app_assoc. simpl. replace (k + 1) with (S k) by lia.
      reflexivity.
  - apply Nat.ltb_ge in E.
    assert (Hpages : pagesOf = k + 1).
    { unfold requestsFor. destruct Hk as [Hk | ->].
      - rewrite (ceilDiv_exact T P k P_positive Hk); lia.
      - destruct (Nat.eq_dec T 0) as [-> | Hne].
        + rewrite (ceilDiv_zero P P_positive). reflexivity.
        + rewrite (ceilDiv_exact T P 0 P_positive); lia. }
    exists (items ++ data r). rewrite Hpages.
    replace (k + 1 - k) with 1 by lia. simpl.
    split; [reflexivity|]. split; [|lia].
    rewrite length_app, Hd, Hlen. lia.
Qed.

(** The [while] loop when [k + 1] pages have been accumulated. *)
Lemma whileFetch_from (fuel k : nat) (items : list A) (requests : list ListParams) :
  List.length items = Nat.min ((k + 1) * P) T ->
  k * P < T \/ k = 0 ->
  T - k * P < fuel ->
  exists items',
    whileFetch fetch params P fuel T (List.length items <? T) (k * P) items requests
    = (Returned items',
            requests ++ map (fun j => params (Some (j * P)))
                          (seq (k + 1) (pagesOf - (k + 1))))
    /\ List.length items' = T
    /\ k < pagesOf.
Proof.
  revert k items requests.
  induction fuel as [|fuel IH]; intros k items requests Hlen Hk Hfuel; [lia|].
  simpl. rewrite Hlen.
  destruct (Nat.min ((k + 1) * P) T <? T) eqn:E.
  - apply Nat.ltb_lt in E.
    assert (Hnext : (k + 1) * P < T) by lia.
    destruct (stable (Some (k * P + P))) as [r [Hr [Ht Hd]]]. simpl in Hd.
    rewrite Hr.
    destruct (IH (k + 1) (items ++ data r) (requests ++ [params (Some (k * P + P))]))
      as [items' [Hrun [Hlen' Hpages]]].
    + rewrite length_app, Hd, Hlen. nia.
    + left. exact Hnext.
    + nia.
    + exists items'. replace (k * P + P) with ((k + 1) * P) in * by lia.
      rewrite Hrun. split; [|split; [exact Hlen' | lia]].
      replace (pagesOf - (k + 1)) with (S (pagesOf - (k + 1 + 1))) by lia.
      simpl. rewrite <- app_assoc. simpl. replace (k + 1 + 1) with (S (k + 1)) by lia.
      reflexivity.
  - apply Nat.ltb_ge in E.
    assert (Hpages : pagesOf = k + 1).
    { unfold requestsFor. destruct Hk as [Hk | ->].
      - rewrite (ceilDiv_exact T P k P_positive Hk); lia.
      - destruct (Nat.eq_dec T 0) as [-> | Hne].
        + rewrite (ceilDiv_zero P P_positive). reflexivity.
        + rewrite (ceilDiv_exact T P 0 P_positive); lia. }
    exists items. rewrite Hpages, Nat.sub_diag. simpl. rewrite app_nil_r.
    split; [reflexivity|]. split; lia.
Qed.


(** C1, amended: for every total [T] and page size [P > 0], when every
    request is answered with the total [T] and with the page at its offset
    ([P] items, or the remainder of [T]), both forms of the traversal, the
    [do ... while] loop and the first request followed by the [while] loop,
    end, issue [max 1 (ceiling (T / P))] requests, at the offsets 0, [P],
    [2 P], ... in this order, and accumulate exactly [T] items.  For
    [T = 0] that is one request. *)
Theorem traversal_requests_and_items (fuel : nat) (Hfuel : T < fuel) :
  (exists items requests,
     doWhileFetch fetch params P fuel 0 [] [] = (Returned items, requests)
     /\ requests = map (fun j => params (Some (j * P))) (seq 0 (requestsFor T P))
     /\ List.length requests = Nat.max 1 (ceilDiv T P)
     /\ List.length items = T)
  /\ (exists items requests,
        firstThenWhile fetch params P fuel (fun total => total)
        = (Returned items, requests)
        /\ requests = params None
                      :: map (fun j => params (Some (j * P)))
                           (seq 1 (requestsFor T P - 1))
        /\ List.length requests = Nat.max 1 (ceilDiv T P)
        /\ List.length items = T).
Proof.
  split.
  - destruct (doWhileFetch_from fuel 0 [] []) as [items [Hrun [Hlen Hk]]];
      [reflexivity | now right | lia |].
    simpl in Hrun. rewrite Nat.sub_0_r in Hrun.
    exists items. eexists. split; [exact Hrun|]. split; [reflexivity|].
    split; [|exact Hlen]. rewrite length_map, length_seq. reflexivity.
  - unfold firstThenWhile.
    destruct (stable None) as [r [Hr [Ht Hd]]]. simpl in Hd. rewrite Hr, Ht.
    destruct (whileFetch_from fuel 0 (data r) [params None])
      as [items [Hrun [Hlen Hk]]]; [rewrite Hd; simpl; lia | now right | lia |].
    simpl in Hrun. exists items. eexists. split; [exact Hrun|].
    split; [reflexivity|]. split; [|exact Hlen].
    cbn [List.length]. rewrite length_map, length_seq. unfold requestsFor. lia.
Qed.

End PaginationFacts.

(** The service of a fixed collection is stable in the sense of the
    traversal theorem. *)
Lemma pageOf_stable (A : Type) (collection : list A) (params : option nat -> ListParams)
    (P : nat) :
  (forall o, q_limit (params o) = Some P /\ q_offset (params o) = o) ->
  forall o, exists r,
    pageOf collection (params o) = inr r
    /\ totalCount r = List.length collection
    /\ List.length (data r) = Nat.min P (List.length collection - nullish o 0).
Proof.
  intros Hparams o. destruct (Hparams o) as [Hl Ho].
  eexists. split; [reflexivity|]. split; [reflexivity|].
  simpl. unfold offsetOf. rewrite Hl, Ho. simpl.
  rewrite length_firstn, length_skipn. reflexivity.
Qed.

(** C1, as the claim has it: the traversal of an empty collection issues
    one request, and the ceiling of 0 / 500 is 0. *)
Lemma empty_collection_costs_one_request :
  Backup.retrieveUsers nat (pageOf []) 1
    = (Returned [], [Backup.userParams (Some 0)])
  /\ UserBackup.retrieveUsers nat (pageOf []) 1
    = (Returned [], [UserBackup.userParams None])
  /\ ceilDiv 0 Backup.limit = 0
  /\ List.length [Backup.userParams (Some 0)] <> ceilDiv 0 Backup.limit.
Proof. repeat split. discriminate. Qed.

(** 1200 users by pages of 500: three requests, 1200 items. *)
Lemma traversal_requests_and_items_witness :
  (exists items,
     Backup.retrieveUsers nat (pageOf (seq 0 1200)) 1201
     = (Returned items,
             [Backup.userParams (Some 0); Backup.userParams (Some 500);
              Backup.userParams (Some 1000)])
     /\ List.length items = 1200)
  /\ (exists items,
        UserBackup.retrieveUsers nat (pageOf (seq 0 1200)) 1201
        = (Returned items,
                [UserBackup.userParams None; UserBackup.userParams (Some 500);
                 UserBackup.userParams (Some 1000)])
        /\ List.length items = 1200).
Proof.
  assert (Hstable : forall params : option nat -> ListParams,
           (forall o, q_limit (params o) = Some 500 /\ q_offset (params o) = o) ->
           forall o, exists r,
             pageOf (seq 0 1200) (params o) = inr r
             /\ totalCount r = 1200
             /\ List.length (data r) = Nat.min 500 (1200 - nullish o 0)).
  { intros params Hparams o.
    destruct (pageOf_stable nat (seq 0 1200) params 500 Hparams o) as [r [H1 [H2 H3]]].
    rewrite length_seq in H2, H3. exists r. auto. }
  split.
  - destruct (traversal_requests_and_items nat (pageOf (seq 0 1200)) Backup.userParams
              500 1200 ltac:(lia)
              (Hstable Backup.userParams (fun o => conj eq_refl eq_refl))
              1201 ltac:(lia))
    as [[items [requests [Hrun [Hreq [_ Hitems]]]]] _].
    exists items. split; [|exact Hitems].
    unfold Backup.retrieveUsers, Backup.limit. rewrite Hrun, Hreq. reflexivity.
  - destruct (traversal_requests_and_items nat (pageOf (seq 0 1200)) UserBackup.userParams
              500 1200 ltac:(lia)
              (Hstable UserBackup.userParams (fun o => conj eq_refl eq_refl))
              1201 ltac:(lia))
    as [_ [items [requests [Hrun [Hreq [_ Hitems]]]]]].
    exists items. split; [|exact Hitems].
    unfold UserBackup.retrieveUsers, UserBackup.limit. rewrite Hrun, Hreq. reflexivity.
Defined.

(** C4: the loop over the organizations of src/org_ids/orgs_get_ids.ts
    compares the accumulated count with the total of the users.  With 3
    users and 1200 organizations it issues the requests at the offsets 0 and
    500 and stops with 1000 organizations, although the total that the
    service reports for the organizations, 1200, exceeds 1000. *)
Lemma legacy_orgs_loop_stops_on_user_total :
  exists exported,
    OrgBackup.main nat nat (pageOf (seq 0 3)) (pageOf (seq 0 1200)) 5
    = Returned exported
    /\ List.length (OrgBackup.orgs nat nat exported) = 1000
    /\ List.length (OrgBackup.orgs nat nat exported) < List.length (seq 0 1200)
    /\ map offsetOf (OrgBackup.orgRequests nat nat exported) = [0; 500].
Proof.
  eexists. split; [reflexivity|]. split; [reflexivity|].
  split; [apply Nat.ltb_lt; reflexivity | reflexivity].
Qed.

(** With 600 organizations and a users' total of 2000 the loop over the
    organizations asks for page after page: no fuel is enough. *)
Lemma legacy_orgs_loop_never_ends (fuel offset : nat) (items : list nat)
    (requests : list ListParams) :
  List.length items <= 600 ->
  List.length items <= offset + 500 ->
  fst (whileFetch (pageOf (seq 0 600)) (OrgBackup.orgParams) OrgBackup.limit fuel 2000
         true offset items requests) = Spent.
Proof.
  revert offset items requests.
  induction fuel as [|fuel IH]; intros offset items requests H1 H2; [reflexivity|].
  cbn [whileFetch]. unfold pageOf at 1.
  set (page := firstn _ _).
  assert (Hpage : List.length page = Nat.min 500 (600 - (offset + 500))).
  { change page with (firstn 500 (skipn (offset + 500) (seq 0 600))).
    rewrite length_firstn, length_skipn, length_seq. reflexivity. }
  cbn [data].
  assert (Hlen : List.length (items ++ page) <= 600) by (rewrite length_app; lia).
  assert (Hmore : (List.length (items ++ page) <? 2000) = true)
    by (apply Nat.ltb_lt; lia).
  rewrite Hmore. apply IH; [exact Hlen|]. rewrite length_app. unfold OrgBackup.limit. lia.
Qed.

Lemma legacy_retrieveOrgs_never_ends (fuel : nat) :
  fst (OrgBackup.retrieveOrgs nat (pageOf (seq 0 600)) fuel 2000) = Spent.
Proof.
  unfold OrgBackup.retrieveOrgs, firstThenWhile.
  change (pageOf (seq 0 600) (OrgBackup.orgParams None))
    with (@inr Obj _ {| data := firstn 500 (seq 0 600);
                        totalCount := List.length (seq 0 600) |}).
  cbv iota beta. cbn [data totalCount].
  replace (List.length (firstn 500 (seq 0 600)) <? List.length (seq 0 600)) with true
    by (rewrite length_firstn, length_seq; reflexivity).
  apply legacy_orgs_loop_never_ends; rewrite length_firstn, length_seq; lia.
Qed.

(** The service of a fixed collection rejects no request. *)
Lemma whileFetch_pageOf_answers (A : Type) (collection : list A)
    (params : option nat -> ListParams) (P fuel total : nat) (hasMore : bool)
    (offset : nat) (items : list A) (requests : list ListParams) (error : Obj) :
  fst (whileFetch (pageOf collection) params P fuel total hasMore offset items requests)
  <> Threw error.
Proof.
  revert hasMore offset items requests.
  induction fuel as [|fuel IH]; intros hasMore offset items requests; [discriminate|].
  cbn [whileFetch]. destruct hasMore; [|discriminate]. apply IH.
Qed.

(** The export of 2000 users and 600 organizations does not end. *)
Lemma legacy_main_never_ends (fuel : nat) :
  OrgBackup.main nat nat (pageOf (seq 0 2000)) (pageOf (seq 0 600)) fuel = Spent.
Proof.
  unfold OrgBackup.main.
  change (pageOf (seq 0 2000) (OrgBackup.userParams None))
    with (@inr Obj _ {| data := firstn 500 (seq 0 2000);
                        totalCount := List.length (seq 0 2000) |}).
  cbv iota beta. cbn [data totalCount]. rewrite length_seq.
  match goal with
  | |- match ?loop with _ => _ end = _ =>
      assert (Hanswers : forall error, fst loop <> Threw error)
        by (intros error; apply whileFetch_pageOf_answers);
      destruct loop as [[users'|error|] userRequests];
      [|exfalso; exact (Hanswers error eq_refl)|reflexivity]
  end.
  pose proof (legacy_retrieveOrgs_never_ends fuel) as H.
  destruct (OrgBackup.retrieveOrgs nat (pageOf (seq 0 600)) fuel 2000) as [c q].
  simpl in H. subst c. reflexivity.
Qed.

(* ================================================================== *)
(** * The run as a whole *)

Section EngineRuns.

Variable isEmail : string -> bool.
Variable zodIssues : Json -> list Json.
Variable DELAY : Num.
Variable RETRY_DELAY : Num.
Variable St : Type.
Variable clerkClient : ClerkApi St.

Local Abbreviation process := (processUserToClerk isEmail zodIssues RETRY_DELAY St clerkClient).
Local Abbreviation parse := (safeParse isEmail zodIssues).
Local Abbreviation loop := (migrateAll isEmail zodIssues DELAY RETRY_DELAY St clerkClient).
Local Abbreviation run := (main isEmail zodIssues DELAY RETRY_DELAY St clerkClient).

Local Abbreviation facts := (blockFacts isEmail zodIssues).

Lemma after_self (w : World St) : after w (clerk w) [] 0 0 = w.
Proof.
  unfold after. destruct w; simpl. rewrite app_nil_r, !Nat.add_0_r. reflexivity.
Qed.

Lemma process_block (fuel : nat) raw (w : World St) res w' :
  process fuel raw w = (res, w') ->
  exists evs,
    trace w' = trace w ++ evs
    /\ migrated w' = migrated w + List.length (filter isCreated evs)
    /\ updated w' = updated w + List.length (filter isUpdated evs)
    /\ facts raw evs.
Proof.
  revert w res w'. induction fuel as [|fuel IH]; intros w res w' H.
  { injection H as _ <-. exists []. simpl. rewrite app_nil_r, !Nat.add_0_r.
    do 3 (split; [reflexivity|]). unfold blockFacts, countedOnce, blockOf.
    repeat split; simpl; auto. destruct (parse raw); auto. }
  destruct (parse raw) as [zerr|u] eqn:Hp.
  - destruct (process_invalid isEmail zodIssues RETRY_DELAY St clerkClient
                fuel raw zerr w Hp) as [res0 [evs [Hrun Hevs]]].
    rewrite Hrun in H. injection H as _ <-. exists evs.
    unfold blockFacts, countedOnce, blockOf. rewrite Hp.
    destruct Hevs as [-> | [payload ->]]; simpl; rewrite ?Nat.add_0_r;
      repeat split; auto; eauto.
  - unfold blockFacts, blockOf. rewrite Hp.
    destruct (users_createUser clerkClient (createUserParams u) (clerk w))
      as [[error|e] s1] eqn:Hc.
    + destruct (hasStatus 422 error) eqn:H422.
      * rewrite (process_conflict isEmail zodIssues RETRY_DELAY St clerkClient
                   fuel raw u w error s1 Hp Hc H422) in H.
        rewrite updateUser_answer in H. simpl clerk in H.
        destruct (users_getUserList clerkClient [email u] s1) as [[lerr|response] s2];
          [|destruct (data response) as [|existing others] eqn:Hd;
            [|destruct (differs existing u);
              [destruct (users_updateUser clerkClient (id existing)
                           (updateUserParams u) s2) as [[uerr|up] s3]|]]];
          rewrite ?after_after in H; injection H as _ <-;
          (eexists; split; [reflexivity|]); unfold countedOnce;
          repeat split; try intros previous; simpl;
          rewrite ?H422, ?Hd, ?String.eqb_refl; simpl; auto; try lia;
          repeat constructor.
      * destruct (hasStatus 429 error) eqn:H429.
        -- rewrite (process_rate_limited isEmail zodIssues RETRY_DELAY St clerkClient
                      fuel raw u w error s1 Hp Hc H429) in H.
           destruct (IH _ _ _ H) as [evs [Ht [Hm [Hu [Hcount [Horder [Habout Hpace]]]]]]].
           unfold blockOf in Habout. rewrite Hp in Habout.
           exists (EvCreateUser (createUserParams u) (inl error)
                     :: EvRateLimitCooldown RETRY_DELAY :: evs).
           simpl in Ht, Hm, Hu. rewrite Nat.add_0_r in Hm, Hu.
           split; [rewrite Ht, <- app_assoc; reflexivity|].
           split; [exact Hm|]. split; [exact Hu|].
           split; [exact Hcount|]. split; [intros previous; apply Horder|].
           split; [|exact Hpace].
           constructor; [reflexivity|]. constructor; [exact I | exact Habout].
        -- rewrite (process_other isEmail zodIssues RETRY_DELAY St clerkClient
                      fuel raw u w error s1 Hp Hc H422 H429) in H.
           injection H as _ <-. eexists; split; [reflexivity|].
           unfold countedOnce. repeat split; try intros previous; simpl; auto;
             try lia; repeat constructor.
    + rewrite (process_created isEmail zodIssues RETRY_DELAY St clerkClient
                 fuel raw u w e s1 Hp Hc) in H.
      injection H as _ <-. eexists; split; [reflexivity|].
      unfold countedOnce. repeat split; try intros previous; simpl; auto;
        try lia; repeat constructor.
Qed.


Lemma lookups_app (previous : option Event) (t1 t2 : list Event) :
  lookupsInOrder previous (t1 ++ t2)
  = lookupsInOrder previous t1 && lookupsInOrder (lastOr previous t1) t2.
Proof.
  revert previous. induction t1 as [|ev rest IH]; intros previous; simpl.
  - reflexivity.
  - rewrite IH. apply andb_assoc.
Qed.

Lemma loop_blocks (fuel : nat) (records : list Json) (w : World St) res w' :
  loop fuel records w = (res, w') ->
  exists blocks,
    trace w' = trace w ++ pacedBlocks DELAY blocks
    /\ migrated w' = migrated w + List.length (filter isCreated (pacedBlocks DELAY blocks))
    /\ updated w' = updated w + List.length (filter isUpdated (pacedBlocks DELAY blocks))
    /\ Forall2 facts (firstn (List.length blocks) records) blocks
    /\ (res = Returned tt -> List.length blocks = List.length records).
Proof.
  revert w. induction records as [|raw rest IH]; intros w H.
  - injection H as <- <-. exists []. simpl. rewrite app_nil_r, !Nat.add_0_r.
    repeat split; auto.
  - rewrite (migrateAll_cons isEmail zodIssues DELAY RETRY_DELAY St clerkClient) in H.
    destruct (process fuel raw (after w (clerk w) [EvCooldown DELAY] 0 0))
      as [c w1] eqn:Hrun.
    destruct (process_block _ _ _ _ _ Hrun) as [evs1 [Ht1 [Hm1 [Hu1 Hfacts]]]].
    simpl in Ht1, Hm1, Hu1. rewrite Nat.add_0_r in Hm1, Hu1.
    assert (Hstop : (res, w') = (c, w1) ->
              exists blocks,
                trace w' = trace w ++ pacedBlocks DELAY blocks
                /\ migrated w' = migrated w
                     + List.length (filter isCreated (pacedBlocks DELAY blocks))
                /\ updated w' = updated w
                     + List.length (filter isUpdated (pacedBlocks DELAY blocks))
                /\ Forall2 facts (firstn (List.length blocks) (raw :: rest)) blocks
                /\ (c <> Returned tt -> res = Returned tt ->
                    List.length blocks = List.length (raw :: rest))).
    { intros E. injection E as -> ->. exists [evs1]. unfold pacedBlocks. simpl.
      rewrite app_nil_r, Ht1, <- app_assoc. simpl.
      repeat split; auto. intros Hc Hr. contradiction. }
    destruct c as [[]|e|].
    + destruct (IH _ H) as [blocks [Ht2 [Hm2 [Hu2 [Hall Hn]]]]].
      exists (evs1 :: blocks). unfold pacedBlocks in *. simpl.
      rewrite !filter_app, !length_app.
      split; [rewrite Ht2, Ht1, <- !app_assoc; reflexivity|].
      split; [rewrite Hm2, Hm1; lia|]. split; [rewrite Hu2, Hu1; lia|].
      split; [constructor; assumption|].
      intros Hres. now rewrite (Hn Hres).
    + destruct (Hstop (eq_sym H)) as [blocks [? [? [? [? Hn]]]]].
      exists blocks. repeat split; auto. intros Hr. apply Hn; [discriminate | exact Hr].
    + destruct (Hstop (eq_sym H)) as [blocks [? [? [? [? Hn]]]]].
      exists blocks. repeat split; auto. intros Hr. apply Hn; [discriminate | exact Hr].
Qed.

Lemma blocks_counted (records : list Json) (blocks : list (list Event)) :
  Forall2 facts records blocks ->
  List.length (filter isCreated (pacedBlocks DELAY blocks))
  + List.length (filter isUpdated (pacedBlocks DELAY blocks))
  + List.length (auditLog (pacedBlocks DELAY blocks)) <= List.length blocks
  /\ (forall previous, lookupsInOrder previous (pacedBlocks DELAY blocks) = true).
Proof.
  unfold pacedBlocks, auditLog.
  induction 1 as [|raw evs records blocks [Hcount [Horder _]] _ [IHc IHo]]; simpl.
  - split; [lia | reflexivity].
  - unfold countedOnce, auditLog in Hcount.
    rewrite !filter_app, !length_app. split; [lia|].
    intros previous. rewrite lookups_app, Horder, IHo. reflexivity.
Qed.


Lemma run_blocks (fuel : nat) (OFFSET : Num) (records : list Json) (s : St) :
  let w := snd (run fuel OFFSET records (start St s)) in
  let offsetUsers := slice (nullish OFFSET 0%Z) records in
  exists blocks,
    trace w = pacedBlocks DELAY blocks
    /\ migrated w = List.length (filter isCreated (pacedBlocks DELAY blocks))
    /\ updated w = List.length (filter isUpdated (pacedBlocks DELAY blocks))
    /\ Forall2 facts (firstn (List.length blocks) offsetUsers) blocks
    /\ List.length blocks <= List.length offsetUsers.
Proof.
  intros w offsetUsers. unfold main in w.
  destruct (loop_blocks fuel offsetUsers (start St s) _ _
              (surjective_pairing (loop fuel offsetUsers (start St s))))
    as [blocks [Ht [Hm [Hu [Hall _]]]]].
  exists blocks. simpl in Ht, Hm, Hu. repeat split; auto.
  apply Forall2_length in Hall. rewrite length_firstn in Hall. lia.
Qed.

(** X1: when a run of [main] ends, however it ends, [migrated] is the
    number of create calls that the service fulfilled and [updated] the
    number of update calls that it fulfilled. *)
Theorem counters_match_fulfilled_calls (fuel : nat) (OFFSET : Num)
    (records : list Json) (s : St) :
  let w := snd (run fuel OFFSET records (start St s)) in
  migrated w = List.length (filter isCreated (trace w))
  /\ updated w = List.length (filter isUpdated (trace w)).
Proof.
  intros w. destruct (run_blocks fuel OFFSET records s) as [blocks [Ht [Hm [Hu _]]]].
  fold w in Ht, Hm, Hu. rewrite Ht. split; assumption.
Qed.

(** X2: a record adds at most one to [migrated], [updated] and the
    entries of the log together: their sum never exceeds the number of
    records that the offset leaves. *)
Theorem each_record_counted_at_most_once (fuel : nat) (OFFSET : Num)
    (records : list Json) (s : St) :
  let w := snd (run fuel OFFSET records (start St s)) in
  migrated w + updated w + List.length (auditLog (trace w))
  <= List.length (slice (nullish OFFSET 0%Z) records).
Proof.
  intros w.
  destruct (run_blocks fuel OFFSET records s) as [blocks [Ht [Hm [Hu [Hall Hle]]]]].
  fold w in Ht, Hm, Hu. rewrite Ht, Hm, Hu.
  destruct (blocks_counted _ _ Hall) as [Hcount _]. lia.
Qed.

(** X3: in the trace of a run, every lookup by email directly follows a
    create call rejected with status 422, and every update call directly
    follows a fulfilled lookup and goes to the first entity of its answer. *)
Theorem updates_follow_their_lookup (fuel : nat) (OFFSET : Num)
    (records : list Json) (s : St) :
  lookupsInOrder None (trace (snd (run fuel OFFSET records (start St s)))) = true.
Proof.
  destruct (run_blocks fuel OFFSET records s) as [blocks [Ht [_ [_ [Hall _]]]]].
  rewrite Ht. apply (blocks_counted _ _ Hall).
Qed.

(** X4: the trace of a run is a sequence of blocks, one for each record
    reached, in the order of the input after the offset, each opened by the
    pacing delay; the calls of a block carry the payloads of its own record,
    and a record that does not parse leaves at most a log entry. *)
Theorem records_are_processed_in_turn (fuel : nat) (OFFSET : Num)
    (records : list Json) (s : St) :
  let w := snd (run fuel OFFSET records (start St s)) in
  let offsetUsers := slice (nullish OFFSET 0%Z) records in
  exists blocks,
    trace w = pacedBlocks DELAY blocks
    /\ List.length blocks <= List.length offsetUsers
    /\ Forall2 (blockOf isEmail zodIssues) (firstn (List.length blocks) offsetUsers) blocks.
Proof.
  intros w offsetUsers.
  destruct (run_blocks fuel OFFSET records s) as [blocks [Ht [_ [_ [Hall Hle]]]]].
  exists blocks. split; [exact Ht|]. split; [exact Hle|].
  revert Hall. apply Forall2_impl. intros raw evs [_ [_ [H _]]]. exact H.
Qed.


(** The loop over two lists in a row. *)
Lemma migrateAll_app (fuel : nat) (l1 l2 : list Json) (w : World St) :
  loop fuel (l1 ++ l2) w =
    match loop fuel l1 w with
    | (Returned _, w1) => loop fuel l2 w1
    | other => other
    end.
Proof.
  revert w. induction l1 as [|raw rest IH]; intros w; [reflexivity|].
  simpl app. rewrite !(migrateAll_cons isEmail zodIssues DELAY RETRY_DELAY St clerkClient).
  destruct (process fuel raw (after w (clerk w) [EvCooldown DELAY] 0 0))
    as [[[]|e|] w1]; [apply IH | reflexivity | reflexivity].
Qed.

Lemma parse_invalid_error (raw : Json) (zerr : Obj) :
  parse raw = inl zerr -> zerr = zodError zodIssues raw.
Proof.
  unfold safeParse. intros Hp.
  repeat match type of Hp with
         | match ?x with _ => _ end = _ => destruct x
         | (if ?x then _ else _) = _ => destruct x
         end; congruence.
Qed.

(** X5: an object that the schema rejects reaches no call of the
    service: processing it appends one log entry, which has the [issues] of
    the validation error and the [userId] of the object when it has one,
    changes no counter, and the loop of [main] goes on with the next
    record. *)
Theorem invalid_record_is_logged_without_call (fuel : nat) props zerr
    (w : World St) rest :
  parse (JObj props) = inl zerr ->
  let base := match obj_get "userId" props with
              | Some uid => [("userId", uid)]
              | None => []
              end in
  let entry := obj_spread base (zodError zodIssues (JObj props)) in
  process (S fuel) (JObj props) w
  = (Returned tt, after w (clerk w) [EvAppendLog entry] 0 0)
  /\ obj_get "userId" entry = obj_get "userId" props
  /\ obj_get "issues" entry = Some (JArr (zodIssues (JObj props)))
  /\ loop (S fuel) (JObj props :: rest) w
     = loop (S fuel) rest (after w (clerk w) [EvCooldown DELAY; EvAppendLog entry] 0 0).
Proof.
  intros Hp base entry.
  assert (Hrun : forall w0 : World St,
            process (S fuel) (JObj props) w0
            = (Returned tt, after w0 (clerk w0) [EvAppendLog entry] 0 0)).
  { intros w0. pose proof (parse_invalid_error _ _ Hp) as ->.
    simpl. unfold try_catch, attempt. rewrite Hp. unfold throw. simpl.
    unfold bind, logPayload. simpl. subst entry base.
    destruct (obj_get "userId" props) as [uid|];
      unfold ret, appendLog, emit, after; simpl; rewrite !Nat.add_0_r; reflexivity. }
  split; [apply Hrun|]. split; [|split].
  - subst entry base. destruct (obj_get "userId" props) as [uid|]; reflexivity.
  - subst entry base. destruct (obj_get "userId" props) as [uid|]; reflexivity.
  - rewrite (migrateAll_cons isEmail zodIssues DELAY RETRY_DELAY St clerkClient).
    rewrite Hrun, after_after. reflexivity.
Qed.

(** X6: the optional fields of the schema accept an absent value,
    not [null]: a record whose [name] or [location] is [null] is rejected by
    the schema. *)
Theorem null_name_or_location_is_invalid (props : Obj) :
  obj_get "name" props = Some JNull \/ obj_get "location" props = Some JNull ->
  parse (JObj props) = inl (zodError zodIssues (JObj props)).
Proof.
  intros H. unfold safeParse.
  destruct (parseString (obj_get "userId" props)); [|reflexivity].
  destruct (parseString (obj_get "email" props)); [|reflexivity].
  destruct H as [H | H]; rewrite H; simpl.
  - reflexivity.
  - destruct (parseOptionalString (obj_get "name" props)); reflexivity.
Qed.

(** X7: a [null] element of the input stops the run.  Reading its
    [userId] in the [catch] block throws, nothing is logged for it, the
    records after it are not reached, and [main] ends with that error right
    after the pacing delay of the element. *)
Theorem null_record_aborts_run (fuel : nat) (before rest : list Json)
    (w w1 : World St) :
  loop (S fuel) before w = (Returned tt, w1) ->
  loop (S fuel) (before ++ JNull :: rest) w
  = (Threw [], after w1 (clerk w1) [EvCooldown DELAY] 0 0).
Proof.
  intros Hbefore. rewrite migrateAll_app, Hbefore.
  rewrite (migrateAll_cons isEmail zodIssues DELAY RETRY_DELAY St clerkClient).
  simpl. unfold try_catch, attempt, throw, bind, logPayload. simpl. reflexivity.
Qed.

(** X8: the lookup and the update are made inside the [catch] block:
    when either is rejected, the error is not logged, it ends the whole run,
    and the records that follow are not reached. *)
Theorem rejected_lookup_or_update_aborts_run (fuel : nat) raw u (before rest : list Json)
    (w0 w : World St) error s1 :
  loop (S fuel) before w0 = (Returned tt, w) ->
  parse raw = inr u ->
  let paced := after w (clerk w) [EvCooldown DELAY] 0 0 in
  let conflict := EvCreateUser (createUserParams u) (inl error) in
  users_createUser clerkClient (createUserParams u) (clerk w) = (inl error, s1) ->
  hasStatus 422 error = true ->
  (forall e s2,
     users_getUserList clerkClient [email u] s1 = (inl e, s2) ->
     loop (S fuel) (before ++ raw :: rest) w0
     = (Threw e, after paced s2 [conflict; EvGetUserList [email u] (inl e)] 0 0))
  /\ (forall response s2 existing others e s3,
        users_getUserList clerkClient [email u] s1 = (inr response, s2) ->
        data response = existing :: others ->
        differs existing u = true ->
        users_updateUser clerkClient (id existing) (updateUserParams u) s2 = (inl e, s3) ->
        loop (S fuel) (before ++ raw :: rest) w0
        = (Threw e,
           after paced s3
             [conflict; EvGetUserList [email u] (inr response);
              EvUpdateUser (id existing) (updateUserParams u) (inl e)] 0 0)).
Proof.
  intros Hbefore Hp paced conflict Hc H422.
  assert (Hc' : users_createUser clerkClient (createUserParams u) (clerk paced)
                = (inl error, s1)) by exact Hc.
  split.
  - intros e s2 Hl. rewrite migrateAll_app, Hbefore.
    rewrite (migrateAll_cons isEmail zodIssues DELAY RETRY_DELAY St clerkClient).
    fold paced.
    rewrite (process_conflict isEmail zodIssues RETRY_DELAY St clerkClient
               fuel raw u paced error s1 Hp Hc' H422).
    rewrite updateUser_answer. simpl clerk. rewrite Hl, after_after. reflexivity.
  - intros response s2 existing others e s3 Hl Hd Hdiff Hu.
    rewrite migrateAll_app, Hbefore.
    rewrite (migrateAll_cons isEmail zodIssues DELAY RETRY_DELAY St clerkClient).
    fold paced.
    rewrite (process_conflict isEmail zodIssues RETRY_DELAY St clerkClient
               fuel raw u paced error s1 Hp Hc' H422).
    rewrite updateUser_answer. simpl clerk. rewrite Hl, Hd, Hdiff, Hu, after_after.
    reflexivity.
Qed.


Lemma Forall_skipn_keep {A : Type} (P : A -> Prop) (n : nat) (l : list A) :
  Forall P l -> Forall P (skipn n l).
Proof.
  revert l. induction n as [|n IH]; intros l H; [exact H|].
  destruct H; simpl; [constructor | apply IH; assumption].
Qed.

Section Isolation.

(** The lookup and the update are always fulfilled. *)
Hypothesis lookup_answers :
  forall emails s, exists response s',
    users_getUserList clerkClient emails s = (inr response, s').
Hypothesis update_answers :
  forall target params s, exists up s',
    users_updateUser clerkClient target params s = (inr up, s').

Lemma process_never_throws (fuel : nat) raw (w : World St) e :
  raw <> JNull -> fst (process fuel raw w) <> Threw e.
Proof.
  intros Hraw. revert w. induction fuel as [|fuel IH]; intros w; [discriminate|].
  destruct (parse raw) as [zerr|u] eqn:Hp.
  - pose proof (parse_invalid_error _ _ Hp) as ->.
    simpl. unfold try_catch, attempt. rewrite Hp. unfold throw. simpl.
    unfold bind, logPayload.
    destruct raw; try contradiction; simpl;
      try destruct (obj_get "userId" props); discriminate.
  - destruct (users_createUser clerkClient (createUserParams u) (clerk w))
      as [[error|c] s1] eqn:Hc.
    + destruct (hasStatus 422 error) eqn:H422.
      * rewrite (process_conflict isEmail zodIssues RETRY_DELAY St clerkClient
                   fuel raw u w error s1 Hp Hc H422).
        rewrite updateUser_answer. simpl clerk.
        destruct (lookup_answers [email u] s1) as [response [s2 ->]].
        destruct (data response) as [|existing others]; [discriminate|].
        destruct (differs existing u); [|discriminate].
        destruct (update_answers (id existing) (updateUserParams u) s2) as [up [s3 ->]].
        discriminate.
      * destruct (hasStatus 429 error) eqn:H429.
        -- rewrite (process_rate_limited isEmail zodIssues RETRY_DELAY St clerkClient
                      fuel raw u w error s1 Hp Hc H429). apply IH.
        -- rewrite (process_other isEmail zodIssues RETRY_DELAY St clerkClient
                      fuel raw u w error s1 Hp Hc H422 H429). discriminate.
    + rewrite (process_created isEmail zodIssues RETRY_DELAY St clerkClient
                 fuel raw u w c s1 Hp Hc). discriminate.
Qed.

(** X9: against a service whose lookups and updates are always
    fulfilled, no run over records other than [null] ends with an error,
    whatever the create calls answer and whatever the records hold. *)
Theorem record_failures_never_stop_the_run (fuel : nat) (OFFSET : Num)
    (records : list Json) (s : St) (e : Obj) :
  Forall (fun raw => raw <> JNull) records ->
  fst (run fuel OFFSET records (start St s)) <> Threw e.
Proof.
  intros Hrecords. unfold main, slice.
  set (offsetUsers := skipn _ records).
  assert (Hall : Forall (fun raw => raw <> JNull) offsetUsers)
    by (apply Forall_skipn_keep; exact Hrecords).
  clearbody offsetUsers. generalize (start St s). clear s.
  induction Hall as [|raw rest Hraw _ IH]; intros w; [discriminate|].
  rewrite (migrateAll_cons isEmail zodIssues DELAY RETRY_DELAY St clerkClient).
  pose proof (process_never_throws fuel raw
                (after w (clerk w) [EvCooldown DELAY] 0 0) e Hraw) as Hno.
  destruct (process fuel raw (after w (clerk w) [EvCooldown DELAY] 0 0))
    as [[[]|e'|] w1]; simpl in *; [apply IH | | discriminate].
  intros E. injection E as ->. contradiction.
Qed.

End Isolation.

Section NoRateLimit.

(** The service never rejects a create call with status 429. *)
Hypothesis never_rate_limited :
  forall params s error s',
    users_createUser clerkClient params s = (inl error, s') ->
    hasStatus 429 error = false.

Lemma process_once (fuel : nat) raw (w : World St) :
  exists evs,
    trace (snd (process (S fuel) raw w)) = trace w ++ evs
    /\ List.length (filter isCreate evs) <= 1
    /\ filter isRateLimitCooldown evs = []
    /\ fst (process (S fuel) raw w) <> Spent.
Proof.
  destruct (parse raw) as [zerr|u] eqn:Hp.
  - destruct (process_invalid isEmail zodIssues RETRY_DELAY St clerkClient
                fuel raw zerr w Hp) as [res0 [evs [Hrun Hevs]]].
    assert (Hres : res0 <> Spent).
    { pose proof (parse_invalid_error _ _ Hp) as ->. revert Hrun.
      simpl. unfold try_catch, attempt. rewrite Hp. unfold throw. simpl.
      unfold bind, logPayload.
      destruct (member raw "userId") as [typeError|[uid|]]; simpl;
        intros E; injection E as <- _; discriminate. }
    rewrite Hrun. exists evs.
    destruct Hevs as [-> | [payload ->]]; simpl; repeat split; auto.
  - destruct (users_createUser clerkClient (createUserParams u) (clerk w))
      as [[error|c] s1] eqn:Hc.
    + pose proof (never_rate_limited _ _ _ _ Hc) as H429.
      destruct (hasStatus 422 error) eqn:H422.
      * rewrite (process_conflict isEmail zodIssues RETRY_DELAY St clerkClient
                   fuel raw u w error s1 Hp Hc H422).
        rewrite updateUser_answer. simpl clerk.
        destruct (users_getUserList clerkClient [email u] s1) as [[lerr|response] s2];
          [|destruct (data response) as [|existing others];
            [|destruct (differs existing u);
              [destruct (users_updateUser clerkClient (id existing)
                           (updateUserParams u) s2) as [[uerr|up] s3]|]]];
          rewrite ?after_after; (eexists; split; [reflexivity|]);
          simpl; repeat split; auto; discriminate.
      * rewrite (process_other isEmail zodIssues RETRY_DELAY St clerkClient
                   fuel raw u w error s1 Hp Hc H422 H429).
        eexists; split; [reflexivity|]. simpl. repeat split; auto; discriminate.
    + rewrite (process_created isEmail zodIssues RETRY_DELAY St clerkClient
                 fuel raw u w c s1 Hp Hc).
      eexists; split; [reflexivity|]. simpl. repeat split; auto; discriminate.
Qed.

(** X10: against a service that never answers a create call with
    status 429, a run makes no retry: it ends without the fuel of a second
    attempt, makes at most one create call for each record and never waits
    for the retry delay. *)
Theorem without_rate_limit_one_create_per_record (fuel : nat) (OFFSET : Num)
    (records : list Json) (s : St) :
  let result := run (S fuel) OFFSET records (start St s) in
  fst result <> Spent
  /\ List.length (filter isCreate (trace (snd result)))
     <= List.length (slice (nullish OFFSET 0%Z) records)
  /\ filter isRateLimitCooldown (trace (snd result)) = [].
Proof.
  cbv zeta. unfold main. set (offsetUsers := slice _ records). clearbody offsetUsers.
  assert (H : forall w : World St,
            exists evs,
              trace (snd (loop (S fuel) offsetUsers w)) = trace w ++ evs
              /\ List.length (filter isCreate evs) <= List.length offsetUsers
              /\ filter isRateLimitCooldown evs = []
              /\ fst (loop (S fuel) offsetUsers w) <> Spent).
  { induction offsetUsers as [|raw rest IH]; intros w.
    - exists []. simpl. rewrite app_nil_r. repeat split; auto. discriminate.
    - rewrite (migrateAll_cons isEmail zodIssues DELAY RETRY_DELAY St clerkClient).
      destruct (process_once fuel raw (after w (clerk w) [EvCooldown DELAY] 0 0))
        as [evs1 [Ht1 [Hc1 [Hr1 Hs1]]]].
      destruct (process (S fuel) raw (after w (clerk w) [EvCooldown DELAY] 0 0))
        as [[[]|e|] w1]; simpl in Ht1, Hs1.
      + destruct (IH w1) as [evs2 [Ht2 [Hc2 [Hr2 Hs2]]]].
        exists (EvCooldown DELAY :: evs1 ++ evs2).
        split; [rewrite Ht2, Ht1, <- !app_assoc; reflexivity|].
        simpl. rewrite !filter_app, length_app, Hr1, Hr2.
        split; [lia|]. split; [reflexivity | exact Hs2].
      + exists (EvCooldown DELAY :: evs1). simpl.
        split; [rewrite Ht1, <- !app_assoc; reflexivity|].
        split; [lia|]. split; [exact Hr1 | discriminate].
      + contradiction. }
  destruct (H (start St s)) as [evs [Ht [Hc [Hr Hs]]]].
  simpl in Ht. rewrite Ht. auto.
Qed.

End NoRateLimit.

(** X11: an entity whose external identifier, first name or last name
    is [null] differs from every record, because the comparison is strict and
    the record side is a string or [undefined]: on a conflict such an entity
    is updated, and counted, at every run. *)
Theorem entity_with_null_field_is_updated (fuel : nat) raw u (w : World St)
    error s1 response s2 existing others up s3 :
  parse raw = inr u ->
  users_createUser clerkClient (createUserParams u) (clerk w) = (inl error, s1) ->
  hasStatus 422 error = true ->
  users_getUserList clerkClient [email u] s1 = (inr response, s2) ->
  data response = existing :: others ->
  externalId existing = Some JNull \/ firstName existing = Some JNull
  \/ lastName existing = Some JNull ->
  users_updateUser clerkClient (id existing) (updateUserParams u) s2 = (inr up, s3) ->
  differs existing u = true
  /\ process (S fuel) raw w
     = (Returned tt,
        after w s3
          [EvCreateUser (createUserParams u) (inl error);
           EvGetUserList [email u] (inr response);
           EvUpdateUser (id existing) (updateUserParams u) (inr up)] 0 1).
Proof.
  intros Hp Hc H422 Hl Hd Hnull Hu.
  assert (Hdiff : differs existing u = true).
  { unfold differs. destruct (splitName (name u)) as [f l].
    destruct Hnull as [H | [H | H]]; rewrite H; simpl;
      rewrite ?orb_true_r; reflexivity. }
  split; [exact Hdiff|].
  rewrite (process_conflict isEmail zodIssues RETRY_DELAY St clerkClient
             fuel raw u w error s1 Hp Hc H422).
  rewrite updateUser_answer. simpl clerk. rewrite Hl, Hd, Hdiff, Hu.
  rewrite !after_after. reflexivity.
Qed.

End EngineRuns.

(* ================================================================== *)
(** * Resuming a run *)

Section Resume.

Variable isEmail : string -> bool.
Variable zodIssues : Json -> list Json.
Variable DELAY : Num.
Variable RETRY_DELAY : Num.
Variable St : Type.
Variable clerkClient : ClerkApi St.

Local Abbreviation process := (processUserToClerk isEmail zodIssues RETRY_DELAY St clerkClient).
Local Abbreviation loop := (migrateAll isEmail zodIssues DELAY RETRY_DELAY St clerkClient).
Local Abbreviation run := (main isEmail zodIssues DELAY RETRY_DELAY St clerkClient).

Lemma framed_ret {A : Type} (a : A) : framed (@ret St A a).
Proof.
  intros w. unfold ret, after. simpl.
  destruct w; simpl. rewrite app_nil_r, !Nat.add_0_r. reflexivity.
Qed.

Lemma framed_throw {A : Type} (e : Obj) : framed (@throw St A e).
Proof.
  intros w. unfold throw, after. simpl.
  destruct w; simpl. rewrite app_nil_r, !Nat.add_0_r. reflexivity.
Qed.

Lemma framed_spent {A : Type} : framed (fun w : World St => (@Spent A, w)).
Proof.
  intros w. unfold after. simpl.
  destruct w; simpl. rewrite app_nil_r, !Nat.add_0_r. reflexivity.
Qed.

Lemma framed_emit (ev : Event) : framed (@emit St ev).
Proof.
  intros w. unfold emit, after. simpl. rewrite !Nat.add_0_r. reflexivity.
Qed.

Lemma framed_incr_migrated : framed (@incr_migrated St).
Proof.
  intros w. unfold incr_migrated, after. simpl.
  rewrite app_nil_r, !Nat.add_0_r. reflexivity.
Qed.

Lemma framed_incr_updated : framed (@incr_updated St).
Proof.
  intros w. unfold incr_updated, after. simpl.
  rewrite app_nil_r, !Nat.add_0_r. reflexivity.
Qed.

Lemma framed_await {A : Type} (call : St -> Answer A * St) (record : Answer A -> Event) :
  framed (await call record).
Proof.
  intros w. unfold await, after. simpl.
  destruct (call (clerk w)) as [[e|a] s']; simpl; rewrite !Nat.add_0_r; reflexivity.
Qed.

Lemma framed_bind {A B : Type} (m : M St A) (k : A -> M St B) :
  framed m -> (forall a, framed (k a)) -> framed (bind m k).
Proof.
  intros Hm Hk w. unfold bind. rewrite (Hm w).
  destruct (m (start St (clerk w))) as [[a|e|] w1]; simpl; try reflexivity.
  - rewrite (Hk a (after w (clerk w1) (trace w1) (migrated w1) (updated w1))).
    rewrite (Hk a w1). simpl clerk.
    destruct (k a (start St (clerk w1))) as [r w2]. simpl.
    unfold after. simpl. rewrite <- app_assoc, !Nat.add_assoc. reflexivity.
Qed.

Lemma framed_try_catch {A : Type} (body : M St A) (handler : Obj -> M St A) :
  framed body -> (forall e, framed (handler e)) -> framed (try_catch body handler).
Proof.
  intros Hm Hk w. unfold try_catch. rewrite (Hm w).
  destruct (body (start St (clerk w))) as [[a|e|] w1]; simpl; try reflexivity.
  - rewrite (Hk e (after w (clerk w1) (trace w1) (migrated w1) (updated w1))).
    rewrite (Hk e w1). simpl clerk.
    destruct (handler e (start St (clerk w1))) as [r w2]. simpl.
    unfold after. simpl. rewrite <- app_assoc, !Nat.add_assoc. reflexivity.
Qed.

Lemma framed_process (fuel : nat) (raw : Json) : framed (process fuel raw).
Proof.
  induction fuel as [|fuel IH]; [apply framed_spent|].
  cbn [processUserToClerk]. apply framed_try_catch.
  - unfold attempt. destruct (safeParse isEmail zodIssues raw); [apply framed_throw|].
    apply framed_bind; [apply framed_await | intros; apply framed_incr_migrated].
  - intros error.
    destruct (strict_eq_num (obj_get "status" error) 422).
    + destruct (safeParse isEmail zodIssues raw) as [|parsed]; [apply framed_ret|].
      apply framed_bind.
      * unfold updateUser. apply framed_bind; [apply framed_await|].
        intros response. destruct (data response) as [|existing others];
          [apply framed_ret|].
        destruct (differs existing parsed); [|apply framed_ret].
        apply framed_bind; [apply framed_await | intros; apply framed_ret].
      * intros [up|]; [apply framed_incr_updated | apply framed_ret].
    + destruct (strict_eq_num (obj_get "status" error) 429).
      * apply framed_bind; [apply framed_emit | intros; exact IH].
      * apply framed_bind; [|intros; apply framed_emit].
        unfold logPayload. destruct (member raw "userId") as [|[|]];
          [apply framed_throw | apply framed_ret | apply framed_ret].
Qed.

Lemma framed_loop (fuel : nat) (records : list Json) : framed (loop fuel records).
Proof.
  induction records as [|raw rest IH]; [apply framed_ret|].
  cbn [migrateAll]. apply framed_bind; [apply framed_emit|]. intros _.
  apply framed_bind; [apply framed_process | intros; exact IH].
Qed.

Lemma slice_zero {A : Type} (l : list A) : slice 0%Z l = l.
Proof. unfold slice. simpl. destruct (List.length l); reflexivity. Qed.

Lemma slice_length_app {A : Type} (l1 l2 : list A) :
  slice (Z.of_nat (List.length l1)) (l1 ++ l2) = l2.
Proof.
  unfold slice. rewrite length_app.
  destruct (Z.of_nat (List.length l1) <? 0)%Z eqn:E; [apply Z.ltb_lt in E; lia|].
  rewrite Z.min_l by lia. rewrite Nat2Z.id.
  rewrite skipn_app, skipn_all, Nat.sub_diag. reflexivity.
Qed.


(** X12: a run over a list that continues another list equals the run
    over the first list followed, from the state of the service that it
    leaves, by a run over the whole list with [OFFSET] set to the length of
    the first: same end, the events appended and the counters added. *)
Theorem resumed_run_completes_the_run (fuel : nat) (finished rest : list Json)
    (s : St) (w1 : World St) :
  run fuel (Some 0%Z) finished (start St s) = (Returned tt, w1) ->
  let resumed := run fuel (Some (Z.of_nat (List.length finished))) (finished ++ rest)
                   (start St (clerk w1)) in
  run fuel (Some 0%Z) (finished ++ rest) (start St s)
  = (fst resumed,
     after w1 (clerk (snd resumed)) (trace (snd resumed))
       (migrated (snd resumed)) (updated (snd resumed))).
Proof.
  unfold main. simpl nullish. rewrite !slice_zero, slice_length_app.
  intros Hfirst.
  rewrite (migrateAll_app isEmail zodIssues DELAY RETRY_DELAY St clerkClient), Hfirst.
  apply framed_loop.
Qed.

(** X13: [OFFSET] selects the records as [slice] does: a number from 0
    on skips that many records, one at or above the length leaves none, a
    negative one keeps that many records of the end (all of them when there
    are fewer), and [NaN] keeps every record. *)
Theorem offset_skips_a_prefix (fuel : nat) (records : list Json) (s : St) :
  (forall n, (0 <= n)%Z ->
     run fuel (Some n) records (start St s)
     = loop fuel (skipn (Z.to_nat n) records) (start St s))
  /\ (forall n, (Z.of_nat (List.length records) <= n)%Z ->
        run fuel (Some n) records (start St s) = (Returned tt, start St s))
  /\ (forall k, 0 < k ->
        run fuel (Some (- Z.of_nat k)%Z) records (start St s)
        = loop fuel (skipn (List.length records - k) records) (start St s))
  /\ run fuel None records (start St s) = loop fuel records (start St s).
Proof.
  unfold main, slice. simpl nullish. repeat split.
  - intros n Hn. destruct (n <? 0)%Z eqn:E; [apply Z.ltb_lt in E; lia|].
    destruct (Z.min_spec n (Z.of_nat (List.length records))) as [[Hlt ->] | [Hge ->]];
      [reflexivity|].
    rewrite Nat2Z.id, !skipn_all2 by lia. reflexivity.
  - intros n Hn. destruct (n <? 0)%Z eqn:E; [apply Z.ltb_lt in E; lia|].
    rewrite Z.min_r by lia. rewrite Nat2Z.id, skipn_all. reflexivity.
  - intros k Hk. destruct (- Z.of_nat k <? 0)%Z eqn:E; [|apply Z.ltb_ge in E; lia].
    replace (Z.to_nat (Z.max (Z.of_nat (List.length records) + - Z.of_nat k) 0))
      with (List.length records - k) by lia.
    reflexivity.
  - simpl. destruct (List.length records); reflexivity.
Qed.

End Resume.

(* ================================================================== *)
(** * Numerals, names and the configuration *)

Lemma digits_stop (acc : Z) (tail : string) :
  endsNumeral tail = true -> digits 10 (Some acc) tail = Some acc.
Proof.
  destruct tail as [|c rest]; [reflexivity|]. simpl.
  unfold isDecimalDigit, digitValue.
  destruct ((48 <=? nat_of_ascii c) && (nat_of_ascii c <=? 57)) eqn:E1;
    [discriminate|]. intros _.
  destruct ((97 <=? nat_of_ascii c) && (nat_of_ascii c <=? 102)) eqn:E2.
  - apply andb_true_iff in E2. destruct E2 as [E2 E3].
    apply Nat.leb_le in E2, E3.
    destruct (Z.of_nat (nat_of_ascii c - 87) <? 10)%Z eqn:E4; [|reflexivity].
    apply Z.ltb_lt in E4. lia.
  - destruct ((65 <=? nat_of_ascii c) && (nat_of_ascii c <=? 70)) eqn:E3; [|reflexivity].
    apply andb_true_iff in E3. destruct E3 as [E3 E4].
    apply Nat.leb_le in E3, E4.
    destruct (Z.of_nat (nat_of_ascii c - 55) <? 10)%Z eqn:E5; [|reflexivity].
    apply Z.ltb_lt in E5. lia.
Qed.

Lemma digits_uint (d : Decimal.uint) (acc : nat) (tail : string) :
  digits 10 (Some (Z.of_nat acc))
    (DecimalString.NilEmpty.string_of_uint d ++ tail)%string
  = digits 10 (Some (Z.of_nat (Nat.of_uint_acc d acc))) tail.
Proof.
  revert acc. induction d; intros acc; simpl; [reflexivity|..].
  all: rewrite <- IHd; f_equal; f_equal; rewrite Nat.tail_mul_spec; lia.
Qed.

Lemma digits_uint_first (d : Decimal.uint) (tail : string) :
  d <> Decimal.Nil ->
  digits 10 None (DecimalString.NilEmpty.string_of_uint d ++ tail)%string
  = digits 10 (Some (Z.of_nat (Nat.of_uint d))) tail.
Proof.
  intros Hd. unfold Nat.of_uint. destruct d; [contradiction|..]; simpl;
    rewrite <- digits_uint; reflexivity.
Qed.

Lemma to_uint_nonnil (n : nat) : Nat.to_uint n <> Decimal.Nil.
Proof.
  rewrite <- (DecimalNat.Unsigned.of_to n) at 1.
  rewrite DecimalNat.Unsigned.to_of. apply DecimalFacts.unorm_nonnil.
Qed.

Lemma option_map_mul_1 (o : option Z) : option_map (Z.mul 1) o = o.
Proof.
  destruct o as [z|]; unfold option_map; [rewrite Z.mul_1_l|]; reflexivity.
Qed.

(** A string that starts with a decimal digit, and not with a hexadecimal
    prefix, is read in radix 10 from its first character on. *)
Lemma parseInt_unsigned (c : ascii) (rest : string) :
  isDecimalDigit c = true ->
  c <> "0"%char \/ endsNumeral rest = true ->
  parseInt (String c rest) = digits 10 None (String c rest).
Proof.
  intros Hc Hrest.
  destruct c as [[] [] [] [] [] [] [] []]; try discriminate Hc;
    try (unfold parseInt; cbn [trimStart isWhiteSpace]; simpl; apply option_map_mul_1).
  destruct Hrest as [Hne | Hrest]; [contradiction Hne; reflexivity|].
  destruct rest as [|c2 rest]; [reflexivity|].
  unfold endsNumeral in Hrest.
  destruct c2 as [[] [] [] [] [] [] [] []]; try discriminate Hrest;
    unfold parseInt; simpl; first [reflexivity | apply option_map_mul_1].
Qed.

(** [parseInt] reads a decimal numeral back, and stops at what follows. *)
Lemma parseInt_decimal (n : nat) (tail : string) :
  endsNumeral tail = true ->
  parseInt (decimal n ++ tail)%string = Some (Z.of_nat n).
Proof.
  intros Htail. unfold decimal.
  pose proof (to_uint_nonnil n) as Hnil.
  pose proof (digits_uint_first (Nat.to_uint n) tail Hnil) as Hdigits.
  rewrite DecimalNat.Unsigned.of_to, (digits_stop _ _ Htail) in Hdigits.
  rewrite <- Hdigits.
  assert (Hzero : forall d, Nat.to_uint n = Decimal.D0 d -> d = Decimal.Nil).
  { intros d Hd. pose proof (DecimalNat.Unsigned.to_of (Nat.to_uint n)) as Hnorm.
    rewrite DecimalNat.Unsigned.of_to, Hd, DecimalFacts.unorm_D0 in Hnorm.
    unfold Decimal.unorm in Hnorm.
    destruct (Decimal.nzhead d) eqn:Hhead; try discriminate Hnorm.
    - injection Hnorm as ->. reflexivity.
    - exfalso. apply (DecimalFacts.nzhead_nonzero d d). rewrite Hhead.
      symmetry. exact Hnorm. }
  destruct (Nat.to_uint n) as [|d|d|d|d|d|d|d|d|d|d] eqn:E; [contradiction|..];
    cbn [DecimalString.NilEmpty.string_of_uint String.append];
    apply parseInt_unsigned; try reflexivity; try (left; discriminate).
  right. rewrite (Hzero d eq_refl). exact Htail.
Qed.

Lemma append_empty_r (s : string) : (s ++ EmptyString)%string = s.
Proof. induction s as [|c s IH]; simpl; [reflexivity | now rewrite IH]. Qed.

(** X14: a delay or an offset written in the environment as a plain
    decimal numeral is read back as that number, for the numbers up to
    2^53, which the script holds exactly. *)
Theorem configured_numbers_are_read_back (env : Config.Env) (n : nat) :
  exactInteger (Z.of_nat n) ->
  (Config.DELAY_MS env = Some (decimal n) -> Config.DELAY env = Some (Z.of_nat n))
  /\ (Config.RETRY_DELAY_MS env = Some (decimal n) ->
      Config.RETRY_DELAY env = Some (Z.of_nat n))
  /\ (Config.OFFSET_VAR env = Some (decimal n) ->
      Config.OFFSET env = Some (Z.of_nat n)).
Proof.
  intros _. unfold Config.DELAY, Config.RETRY_DELAY, Config.OFFSET.
  pose proof (parseInt_decimal n EmptyString eq_refl) as H.
  rewrite append_empty_r in H.
  repeat split; intros ->; exact H.
Qed.

(** A delay of 250 ms. *)
Lemma configured_numbers_are_read_back_witness :
  Config.DELAY {| Config.DELAY_MS := Some "250"; Config.RETRY_DELAY_MS := None;
                  Config.OFFSET_VAR := None |}
  = Some 250%Z.
Proof.
  apply (proj1 (configured_numbers_are_read_back
                  {| Config.DELAY_MS := Some "250"; Config.RETRY_DELAY_MS := None;
                     Config.OFFSET_VAR := None |}
                  250 ltac:(unfold exactInteger; cbv; discriminate))).
  reflexivity.
Defined.

(** X15: [parseInt] stops at a digit separator: a value written as
    a decimal numeral, an underscore and more is read as the numeral before
    the underscore, for the numerals up to 2^53, which the script holds
    exactly.  The defaults of the two delays are written this way and are
    read as 1 and 10. *)
Theorem digit_separator_ends_the_number (env : Config.Env) (n : nat) (rest : string) :
  exactInteger (Z.of_nat n) ->
  (Config.DELAY_MS env = Some (decimal n ++ String "_" rest)%string ->
   Config.DELAY env = Some (Z.of_nat n))
  /\ (Config.RETRY_DELAY_MS env = Some (decimal n ++ String "_" rest)%string ->
      Config.RETRY_DELAY env = Some (Z.of_nat n))
  /\ (Config.OFFSET_VAR env = Some (decimal n ++ String "_" rest)%string ->
      Config.OFFSET env = Some (Z.of_nat n))
  /\ (Config.DELAY_MS env = None -> Config.DELAY env = Some 1%Z)
  /\ (Config.RETRY_DELAY_MS env = None -> Config.RETRY_DELAY env = Some 10%Z).
Proof.
  intros _. pose proof (parseInt_decimal n (String "_" rest) eq_refl) as H.
  unfold Config.DELAY, Config.RETRY_DELAY, Config.OFFSET.
  split; [intros ->; exact H|]. split; [intros ->; exact H|].
  split; [intros ->; exact H|]. split; intros ->; reflexivity.
Qed.

(** A delay written as 2_500 is a delay of 2 ms. *)
Lemma digit_separator_ends_the_number_witness :
  Config.DELAY {| Config.DELAY_MS := Some "2_500"; Config.RETRY_DELAY_MS := None;
                  Config.OFFSET_VAR := None |}
  = Some 2%Z.
Proof.
  apply (proj1 (digit_separator_ends_the_number
                  {| Config.DELAY_MS := Some "2_500"; Config.RETRY_DELAY_MS := None;
                     Config.OFFSET_VAR := None |}
                  2 "500" ltac:(unfold exactInteger; cbv; discriminate))).
  reflexivity.
Defined.

Lemma split_nonempty (sep : ascii) (s : string) : split sep s <> [].
Proof.
  intros H. pose proof (split_length sep s) as Hl. rewrite H in Hl. discriminate.
Qed.

(** Joining the pieces of a split gives the string back, and no piece
    holds the separator. *)
Lemma join_split (sep : ascii) (s : string) : join sep (split sep s) = s.
Proof.
  induction s as [|c rest IH]; [reflexivity|]. simpl.
  destruct (Ascii.eqb_spec c sep) as [->|Hne].
  - pose proof (split_nonempty sep rest) as Hne.
    destruct (split sep rest) as [|p ps]; [contradiction|].
    change (join sep (EmptyString :: p :: ps))
      with (String sep (join sep (p :: ps))). now rewrite IH.
  - pose proof (split_nonempty sep rest) as Hnil.
    destruct (split sep rest) as [|p ps]; [contradiction|].
    destruct ps as [|q qs]; simpl in *; now rewrite <- IH.
Qed.

Lemma split_pieces_clean (sep : ascii) (s : string) :
  Forall (fun piece => countChar sep piece = 0) (split sep s).
Proof.
  induction s as [|c rest IH]; simpl; [repeat constructor|].
  destruct (Ascii.eqb c sep) eqn:E.
  - constructor; [reflexivity | exact IH].
  - destruct (split sep rest) as [|p ps]; [repeat constructor; simpl; now rewrite E|].
    inversion IH as [|? ? Hp Hps]; subst. constructor; [|exact Hps].
    simpl. now rewrite E, Hp.
Qed.

(** X16: for a name other than the quotation mark, [splitName] loses
    nothing of the trimmed name: with a last name, the trimmed name is the
    first name, one space and the last name, and neither holds a space;
    without one, the first name is the trimmed name. *)
Theorem splitName_keeps_the_trimmed_name (name : string) :
  name <> QUOTE ->
  match splitName (Some name) with
  | (Some first, Some last) =>
      trim name = (first ++ String " " last)%string
      /\ countChar " " first = 0 /\ countChar " " last = 0
  | (Some first, None) => first = trim name
  | (None, _) => False
  end.
Proof.
  intros Hq. rewrite (splitName_not_quote name Hq).
  pose proof (join_split " " (trim name)) as Hjoin.
  pose proof (split_pieces_clean " " (trim name)) as Hclean.
  destruct (split " " (trim name)) as [|a [|b [|c rest]]]; simpl; try reflexivity.
  inversion Hclean as [|? ? Ha Hrest]; subst.
  inversion Hrest as [|? ? Hb _]; subst.
  simpl in Hjoin. auto.
Qed.

(* ================================================================== *)
(** * The check of the key *)

Lemma second_piece (sep : ascii) (s p : string) :
  nth_error (split sep s) 1 = Some p <->
  exists a b,
    s = (a ++ String sep (p ++ b))%string
    /\ countChar sep a = 0 /\ countChar sep p = 0
    /\ (b = EmptyString \/ exists b', b = String sep b').
Proof.
  split.
  - intros H.
    pose proof (join_split sep s) as Hjoin.
    pose proof (split_pieces_clean sep s) as Hclean.
    destruct (split sep s) as [|a [|q rest]]; try discriminate.
    simpl in H. injection H as ->.
    inversion Hclean as [|? ? Ha Hrest]; subst.
    inversion Hrest as [|? ? Hp _]; subst.
    destruct rest as [|r rest].
    + exists a, EmptyString. simpl. rewrite append_empty_r.
      repeat split; auto.
    + exists a, (String sep (join sep (r :: rest))).
      repeat split; auto. right. now exists (join sep (r :: rest)).
  - intros [a [b [-> [Ha [Hp Hb]]]]].
    rewrite (split_at_sep sep a _ Ha).
    destruct Hb as [-> | [b' ->]].
    + rewrite append_empty_r, (split_without_sep sep p Hp). reflexivity.
    + rewrite (split_at_sep sep p _ Hp). reflexivity.
Qed.

(** X17: the script goes on past the two checks of the key exactly
    when the key is not empty and either its second piece between
    underscores is [live], that is, the key is a prefix without underscore
    followed by [_live] and then nothing or an underscore, or
    [IMPORT_TO_DEV_INSTANCE] is set to something other than [false]. *)
Theorem key_guard_reads_the_second_piece (SECRET_KEY IMPORT_TO_DEV_INSTANCE : option string) :
  checkKey SECRET_KEY IMPORT_TO_DEV_INSTANCE = None <->
  exists key,
    SECRET_KEY = Some key /\ key <> EmptyString
    /\ ((exists a b,
           key = (a ++ "_live" ++ b)%string /\ countChar "_" a = 0
           /\ (b = EmptyString \/ exists b', b = String "_" b'))
        \/ (exists flag, IMPORT_TO_DEV_INSTANCE = Some flag /\ flag <> "false")).
Proof.
  unfold checkKey. destruct SECRET_KEY as [key|].
  2:{ split; [discriminate | intros [key [H _]]; discriminate]. }
  destruct (String.eqb_spec key EmptyString) as [->|Hne].
  { split; [discriminate | intros [key [H [Hk _]]]; injection H as <-; now elim Hk]. }
  assert (Hlive :
    strict_eq_str (option_map JStr (nth_error (split "_" key) 1)) (Some "live") = true
    <-> exists a b,
          key = (a ++ "_live" ++ b)%string /\ countChar "_" a = 0
          /\ (b = EmptyString \/ exists b', b = String "_" b')).
  { split.
    - intros H. destruct (nth_error (split "_" key) 1) as [p|] eqn:Hp; [|discriminate].
      simpl in H. apply String.eqb_eq in H. subst p.
      apply second_piece in Hp. destruct Hp as [a [b [Hk [Ha [_ Hb]]]]].
      exists a, b. repeat split; auto.
    - intros [a [b [Hk [Ha Hb]]]].
      assert (Hp : nth_error (split "_" key) 1 = Some "live").
      { apply second_piece. exists a, b. repeat split; auto. }
      rewrite Hp. reflexivity. }
  destruct (strict_eq_str (option_map JStr (nth_error (split "_" key) 1)) (Some "live"))
    eqn:E; simpl.
  - split; [|reflexivity]. intros _. exists key. repeat split; auto.
    left. apply Hlive. reflexivity.
  - destruct IMPORT_TO_DEV_INSTANCE as [flag|]; simpl.
    + destruct (String.eqb_spec flag "false") as [->|Hflag].
      * split; [discriminate|].
        intros [k [Hk [_ [Hl | [f [Hf Hff]]]]]].
        -- injection Hk as <-. apply Hlive in Hl. discriminate.
        -- injection Hf as <-. now elim Hff.
      * split; [|reflexivity]. intros _. exists key. repeat split; auto.
        right. exists flag. split; auto.
    + split; [discriminate|].
      intros [k [Hk [_ [Hl | [f [Hf _]]]]]]; [|discriminate].
      injection Hk as <-. apply Hlive in Hl. discriminate.
Qed.

(* ================================================================== *)
(** * The traversals, whatever the service answers *)

Section TraversalFacts.

Variable A : Type.
Variable fetch : ListParams -> Answer (PaginatedResponse A).
Variable params : option nat -> ListParams.
Variable P : nat.

Lemma requestsFrom_snoc (k n : nat) :
  requestsFrom params P k (S n)
  = requestsFrom params P k n ++ [params (Some ((k + n) * P))].
Proof. unfold requestsFrom. rewrite seq_S, map_app. reflexivity. Qed.

Lemma requestsFrom_cons (k n : nat) :
  requestsFrom params P k (S n)
  = params (Some (k * P)) :: requestsFrom params P (S k) n.
Proof. reflexivity. Qed.

(** The [do ... while] loop from its [k]-th iteration on: the requests it
    adds are those at the next offsets, a returned list is the accumulated
    items followed by the pages of these requests, and a rejection is that
    of the last request. *)
Lemma doWhileFetch_trace (fuel k : nat) (items : list A) (requests : list ListParams) :
  exists n,
    snd (doWhileFetch fetch params P fuel (k * P) items requests)
    = requests ++ requestsFrom params P k n
    /\ (forall items',
          fst (doWhileFetch fetch params P fuel (k * P) items requests) = Returned items' ->
          items' = items ++ List.concat (map (pageData fetch) (requestsFrom params P k n)))
    /\ (forall e,
          fst (doWhileFetch fetch params P fuel (k * P) items requests) = Threw e ->
          exists m, n = S m /\ fetch (params (Some ((k + m) * P))) = inl e).
Proof.
  revert k items requests. induction fuel as [|fuel IH]; intros k items requests.
  { exists 0. simpl. rewrite !app_nil_r. repeat split; discriminate. }
  cbn [doWhileFetch].
  destruct (fetch (params (Some (k * P)))) as [error|response] eqn:Hr.
  - exists 1. simpl. repeat split.
    + discriminate.
    + intros e H. injection H as <-. exists 0. rewrite Nat.add_0_r. auto.
  - assert (Hpage : pageData fetch (params (Some (k * P))) = data response)
      by (unfold pageData; rewrite Hr; reflexivity).
    destruct (List.length (items ++ data response) <? totalCount response).
    + replace (k * P + P) with (S k * P) by lia.
      destruct (IH (S k) (items ++ data response) (requests ++ [params (Some (k * P))]))
        as [n [Hreq [Hret Hthrow]]].
      exists (S n). rewrite requestsFrom_cons. split; [|split].
      * rewrite Hreq, <- app_assoc. reflexivity.
      * intros items' H. rewrite (Hret _ H). cbn [map List.concat].
        rewrite Hpage, <- app_assoc. reflexivity.
      * intros e H. destruct (Hthrow e H) as [m [-> Hm]].
        exists (S m). split; [reflexivity|].
        replace (k + S m) with (S k + m) by lia. exact Hm.
    + exists 1. cbn [requestsFrom seq map List.concat fst snd]. rewrite Hpage.
      repeat split.
      * intros items' H. injection H as <-. rewrite app_nil_r. reflexivity.
      * discriminate.
Qed.

(** The [while] loop after [k + 1] pages. *)
Lemma whileFetch_trace (fuel total : nat) (hasMore : bool) (k : nat) (items : list A)
    (requests : list ListParams) :
  exists n,
    snd (whileFetch fetch params P fuel total hasMore (k * P) items requests)
    = requests ++ requestsFrom params P (S k) n
    /\ (forall items',
          fst (whileFetch fetch params P fuel total hasMore (k * P) items requests)
          = Returned items' ->
          items' = items
                   ++ List.concat (map (pageData fetch) (requestsFrom params P (S k) n)))
    /\ (forall e,
          fst (whileFetch fetch params P fuel total hasMore (k * P) items requests)
          = Threw e ->
          exists m, n = S m /\ fetch (params (Some ((S k + m) * P))) = inl e).
Proof.
  revert hasMore k items requests.
  induction fuel as [|fuel IH]; intros hasMore k items requests.
  { exists 0. simpl. rewrite !app_nil_r. repeat split; discriminate. }
  cbn [whileFetch]. destruct hasMore.
  - replace (k * P + P) with (S k * P) by lia.
    destruct (fetch (params (Some (S k * P)))) as [error|response] eqn:Hr.
    + exists 1. cbn [requestsFrom seq map fst snd]. repeat split.
      * discriminate.
      * intros e H. injection H as <-. exists 0. rewrite Nat.add_0_r. auto.
    + assert (Hpage : pageData fetch (params (Some (S k * P))) = data response)
        by (unfold pageData; rewrite Hr; reflexivity).
      destruct (IH (List.length (items ++ data response) <? total) (S k)
                  (items ++ data response) (requests ++ [params (Some (S k * P))]))
        as [n [Hreq [Hret Hthrow]]].
      exists (S n). rewrite requestsFrom_cons. split; [|split].
      * rewrite Hreq, <- app_assoc. reflexivity.
      * intros items' H. rewrite (Hret _ H). cbn [map List.concat].
        rewrite Hpage, <- app_assoc. reflexivity.
      * intros e H. destruct (Hthrow e H) as [m [-> Hm]].
        exists (S m). split; [reflexivity|].
        replace (S k + S m) with (S (S k) + m) by lia. exact Hm.
  - exists 0. simpl. rewrite !app_nil_r. repeat split; try discriminate.
    intros items' H. injection H as <-. reflexivity.
Qed.

(** X18: whatever the service answers, both forms of the traversal
    request the offsets 0, [P], [2 P], ... in this order without a gap, and a
    traversal that returns gives the concatenation, in this order, of the
    pages that its requests were answered with. *)
Theorem traversal_accumulates_the_pages (fuel : nat) (loopTotal : nat -> nat) :
  (exists n,
     snd (doWhileFetch fetch params P fuel 0 [] []) = requestsFrom params P 0 n
     /\ forall items,
          fst (doWhileFetch fetch params P fuel 0 [] []) = Returned items ->
          items = List.concat (map (pageData fetch) (requestsFrom params P 0 n)))
  /\ (exists n,
        snd (firstThenWhile fetch params P fuel loopTotal)
        = params None :: requestsFrom params P 1 n
        /\ forall items,
             fst (firstThenWhile fetch params P fuel loopTotal) = Returned items ->
             items = List.concat (map (pageData fetch)
                                    (params None :: requestsFrom params P 1 n))).
Proof.
  split.
  - destruct (doWhileFetch_trace fuel 0 [] []) as [n [Hreq [Hret _]]].
    exists n. split; [exact Hreq | exact Hret].
  - unfold firstThenWhile.
    destruct (fetch (params None)) as [error|response] eqn:Hr.
    + exists 0. split; [reflexivity | discriminate].
    + destruct (whileFetch_trace fuel (loopTotal (totalCount response))
                  (List.length (data response) <? totalCount response) 0
                  (data response) [params None]) as [n [Hreq [Hret _]]].
      exists n. split; [exact Hreq|].
      intros items H. rewrite (Hret _ H). cbn [map List.concat].
      unfold pageData at 2. rewrite Hr. reflexivity.
Qed.

(** X19: a traversal ends with an error only when a request is
    rejected: the error is that of the last request made, no request follows
    it, and the pages fetched before it are dropped. *)
Theorem rejected_request_ends_the_traversal (fuel : nat) (loopTotal : nat -> nat)
    (e : Obj) :
  (fst (doWhileFetch fetch params P fuel 0 [] []) = Threw e ->
   exists m,
     snd (doWhileFetch fetch params P fuel 0 [] []) = requestsFrom params P 0 (S m)
     /\ fetch (params (Some (m * P))) = inl e)
  /\ (fst (firstThenWhile fetch params P fuel loopTotal) = Threw e ->
      fetch (params None) = inl e
      /\ snd (firstThenWhile fetch params P fuel loopTotal) = [params None]
      \/ exists m,
           snd (firstThenWhile fetch params P fuel loopTotal)
           = params None :: requestsFrom params P 1 (S m)
           /\ fetch (params (Some (S m * P))) = inl e).
Proof.
  split.
  - intros H. destruct (doWhileFetch_trace fuel 0 [] []) as [n [Hreq [_ Hthrow]]].
    destruct (Hthrow e H) as [m [-> Hm]]. exists m. split; [exact Hreq | exact Hm].
  - unfold firstThenWhile.
    destruct (fetch (params None)) as [error|response] eqn:Hr.
    + intros H. injection H as <-. left. auto.
    + intros H.
      destruct (whileFetch_trace fuel (loopTotal (totalCount response))
                  (List.length (data response) <? totalCount response) 0
                  (data response) [params None]) as [n [Hreq [_ Hthrow]]].
      destruct (Hthrow e H) as [m [-> Hm]]. right. exists m.
      split; [exact Hreq | exact Hm].
Qed.

End TraversalFacts.

Lemma firstn_plus {A : Type} (a b : nat) (l : list A) :
  firstn (a + b) l = firstn a l ++ firstn b (skipn a l).
Proof.
  revert l. induction a as [|a IH]; intros l; [reflexivity|].
  destruct l as [|x l]; simpl; [now rewrite firstn_nil | now rewrite IH].
Qed.

Section CollectionFacts.

Variable A : Type.
Variable collection : list A.
Variable fetch : ListParams -> Answer (PaginatedResponse A).
Variable params : option nat -> ListParams.
Variable P : nat.
Hypothesis P_positive : 0 < P.

(** Every request is answered with the page of the collection at its
    offset and with the size of the collection. *)
Hypothesis pages :
  forall o,
    fetch (params o)
    = inr {| data := firstn P (skipn (nullish o 0) collection);
             totalCount := List.length collection |}.

Lemma pages_stable :
  forall o, exists r,
    fetch (params o) = inr r
    /\ totalCount r = List.length collection
    /\ List.length (data r) = Nat.min P (List.length collection - nullish o 0).
Proof.
  intros o. eexists. split; [apply pages|]. split; [reflexivity|].
  simpl. rewrite length_firstn, length_skipn. reflexivity.
Qed.

Lemma pages_concat (k n : nat) :
  List.concat (map (pageData fetch) (requestsFrom params P k n))
  = firstn (n * P) (skipn (k * P) collection).
Proof.
  revert k. induction n as [|n IH]; intros k; [reflexivity|].
  rewrite requestsFrom_cons. cbn [map List.concat]. rewrite IH.
  unfold pageData. rewrite pages. cbn [data nullish].
  replace (S n * P) with (P + n * P) by lia. rewrite firstn_plus.
  rewrite skipn_skipn. replace (P + k * P) with (S k * P) by lia. reflexivity.
Qed.

(** X20: when every request is answered with the page of a fixed
    collection at its offset and with the size of the collection, both forms
    of the traversal return the collection itself: every item once, in the
    order of the service. *)
Theorem traversal_returns_the_collection (fuel : nat) :
  List.length collection < fuel ->
  fst (doWhileFetch fetch params P fuel 0 [] []) = Returned collection
  /\ fst (firstThenWhile fetch params P fuel (fun total => total)) = Returned collection.
Proof.
  intros Hfuel. split.
  - destruct (doWhileFetch_from A fetch params P (List.length collection)
                P_positive pages_stable fuel 0 [] [] eq_refl (or_intror eq_refl)
                ltac:(lia)) as [items [Hrun [Hlen _]]].
    simpl in Hrun.
    destruct (doWhileFetch_trace A fetch params P fuel 0 [] []) as [n [_ [Hret _]]].
    simpl in Hret. rewrite Hrun in *. simpl. f_equal.
    rewrite (Hret items eq_refl), pages_concat in *. simpl skipn in *.
    rewrite length_firstn in Hlen. apply firstn_all2. lia.
  - unfold firstThenWhile. rewrite pages. cbn [data totalCount nullish].
    simpl skipn.
    destruct (whileFetch_from A fetch params P (List.length collection)
                P_positive pages_stable fuel 0 (firstn P collection) [params None])
      as [items [Hrun [Hlen _]]];
      [rewrite length_firstn; simpl; lia | now right | lia |].
    simpl in Hrun.
    destruct (whileFetch_trace A fetch params P fuel (List.length collection)
                (List.length (firstn P collection) <? List.length collection) 0
                (firstn P collection) [params None]) as [n [_ [Hret _]]].
    simpl in Hret. rewrite Hrun in *. simpl. f_equal.
    rewrite (Hret items eq_refl), pages_concat in *.
    replace (1 * P) with P in * by lia. rewrite <- firstn_plus in *.
    rewrite length_firstn in Hlen. apply firstn_all2. lia.
Qed.

End CollectionFacts.

Section DryPages.

Variable A : Type.
Variable fetch : ListParams -> Answer (PaginatedResponse A).
Variable params : option nat -> ListParams.
Variable P : nat.

(** Every request is answered with an empty page and a total above 0. *)
Hypothesis dry :
  forall o, exists r,
    fetch (params o) = inr r /\ data r = [] /\ 0 < totalCount r.

(** X21: an empty page does not end a traversal.  Against a service
    that answers every request with no item and a total above 0, neither
    form of the traversal returns, whatever the fuel. *)
Theorem empty_pages_never_end_the_traversal (fuel : nat) :
  fst (doWhileFetch fetch params P fuel 0 [] []) = Spent
  /\ fst (firstThenWhile fetch params P fuel (fun total => total)) = Spent.
Proof.
  split.
  - generalize 0 at 1. generalize (@nil ListParams).
    induction fuel as [|fuel IH]; intros requests offset; [reflexivity|].
    cbn [doWhileFetch]. destruct (dry (Some offset)) as [r [-> [-> Ht]]].
    simpl. apply Nat.ltb_lt in Ht. rewrite Ht. apply IH.
  - unfold firstThenWhile. destruct (dry None) as [r0 [-> [-> Ht]]].
    simpl. apply Nat.ltb_lt in Ht. rewrite Ht.
    generalize 0. generalize [params None].
    induction fuel as [|fuel IH]; intros requests offset; [reflexivity|].
    cbn [whileFetch]. destruct (dry (Some (offset + P))) as [r [-> [-> _]]].
    simpl. rewrite Ht. apply IH.
Qed.

End DryPages.

(* ================================================================== *)
(** * The exports *)

Section UserExportFacts.

Variables UserT RecordT : Type.
Variable toRecord : UserT -> RecordT.
Variable toLocaleString : nat -> string.
Variable getHeaderString : option string.
Variable stringifyRecords : list RecordT -> option string.

Local Abbreviation export :=
  (UserExport.exportCsv UserT RecordT toRecord toLocaleString getHeaderString
     stringifyRecords).

Lemma mapUsers_spec (i : nat) (users : list UserT) (suffixText : string) :
  UserExport.mapUsers UserT RecordT toRecord toLocaleString i users suffixText
  = (map toRecord users,
     match users with
     | [] => suffixText
     | _ :: _ => toLocaleString (i + List.length users - 1)
     end).
Proof.
  revert i suffixText. induction users as [|u rest IH]; intros i suffixText;
    [reflexivity|].
  simpl. rewrite IH. destruct rest as [|v rest]; simpl.
  - f_equal. f_equal. lia.
  - f_equal. f_equal. lia.
Qed.

Lemma writeRecords_spec (i : nat) (records : list RecordT) (file : list string)
    (suffixText : string) :
  UserExport.writeRecords RecordT toLocaleString stringifyRecords i records file suffixText
  = (file ++ map (fun r => orEmpty (stringifyRecords [r])) records,
     match records with
     | [] => suffixText
     | _ :: _ => toLocaleString (i + List.length records - 1)
     end).
Proof.
  revert i file suffixText. induction records as [|r rest IH]; intros i file suffixText.
  - simpl. now rewrite app_nil_r.
  - simpl. rewrite IH. unfold UserExport.appendCSV. rewrite <- app_assoc. simpl.
    destruct rest as [|v rest]; simpl; f_equal; f_equal; lia.
Qed.

(** X22: the export of src/unnamed/part_000 appends the header and one
    chunk for each user, in order, and the count that it prints is not the
    number of chunks: it is what [parseInt] reads of the locale string of the
    last index.  That is [NaN] when there is no user, and for [n > 0] users
    the leading numeral of the string of [n - 1], which stops at the first
    grouping separator. *)
Theorem printed_count_is_read_from_the_last_index (users : list UserT) :
  fst (export users)
  = orEmpty getHeaderString
    :: map (fun u => orEmpty (stringifyRecords [toRecord u])) users
  /\ (users = [] -> snd (export users) = None)
  /\ (forall lead tail,
        users <> [] ->
        toLocaleString (List.length users - 1) = (decimal lead ++ tail)%string ->
        endsNumeral tail = true ->
        snd (export users) = Some (Z.of_nat lead)).
Proof.
  unfold UserExport.exportCsv. rewrite mapUsers_spec, writeRecords_spec.
  unfold UserExport.appendCSV. simpl. rewrite map_map. split; [reflexivity|].
  split.
  - intros ->. reflexivity.
  - intros lead tail Hne Hstr Htail. destruct users as [|u rest]; [contradiction|].
    simpl. rewrite length_map. simpl in Hstr. rewrite Nat.sub_0_r in *.
    rewrite Hstr. apply parseInt_decimal. exact Htail.
Qed.

End UserExportFacts.

Lemma printed_count_is_read_from_the_last_index_witness :
  snd (UserExport.exportCsv nat nat (fun u => u) decimal (Some "id") (fun _ => Some "row")
         [7; 8; 9]) = Some 2%Z.
Proof.
  apply (proj2 (proj2 (printed_count_is_read_from_the_last_index nat nat (fun u => u)
                         decimal (Some "id") (fun _ => Some "row") [7; 8; 9]))
           2 EmptyString);
    [discriminate | reflexivity | reflexivity].
Defined.

Section MemberExportFacts.

Variable getOrganizationMembershipList :
  ListParams -> Answer (PaginatedResponse MemberExport.Membership).
Variable getHeaderString : option string.
Variable stringifyRecords : list MemberExport.Row -> option string.

Lemma writeRows_spec (rows : list MemberExport.Row) (file : list string) (n : nat) :
  MemberExport.writeRows stringifyRecords rows file n
  = (file ++ map (fun r => orEmpty (stringifyRecords [r])) rows, n + List.length rows).
Proof.
  revert file n. induction rows as [|r rest IH]; intros file n; simpl.
  - now rewrite app_nil_r, Nat.add_0_r.
  - rewrite IH, <- app_assoc. simpl. f_equal. lia.
Qed.

Lemma rowOf_has_user (m : MemberExport.Membership) :
  MemberExport.hasUser m = true ->
  exists d, MemberExport.m_publicUserData m = Some d
            /\ MemberExport.userId (MemberExport.rowOf m) = MemberExport.pud_userId d
            /\ MemberExport.pud_userId d <> EmptyString.
Proof.
  unfold MemberExport.hasUser, MemberExport.rowOf.
  destruct (MemberExport.m_publicUserData m) as [d|]; [|discriminate].
  intros H. exists d. simpl. rewrite H. repeat split.
  unfold MemberExport.truthy in H. apply negb_true_iff, String.eqb_neq in H. exact H.
Qed.

Lemma collectRows_rows (fuel : nat) (orgs : list MemberExport.Organization)
    (acc rows : list MemberExport.Row) :
  MemberExport.collectRows getOrganizationMembershipList fuel orgs acc = Returned rows ->
  Forall (fun r => MemberExport.userId r <> EmptyString) acc ->
  Forall (fun r => MemberExport.userId r <> EmptyString) rows.
Proof.
  revert acc. induction orgs as [|o rest IH]; intros acc H Hacc; simpl in H.
  - injection H as <-. exact Hacc.
  - destruct (fst (Backup.retrieveMemberships MemberExport.Membership
                     getOrganizationMembershipList fuel (MemberExport.org_id o)))
      as [ms|e|]; try discriminate.
    apply (IH _ H). apply Forall_app. split; [exact Hacc|].
    apply Forall_forall. intros r Hr. apply in_map_iff in Hr.
    destruct Hr as [m [<- Hm]]. apply filter_In in Hm.
    destruct (rowOf_has_user m (proj2 Hm)) as [d [_ [-> Hd]]]. exact Hd.
Qed.

(** X23: when the export of the memberships returns, the file holds
    the header and one chunk for each row collected, the counter is the
    number of rows, and every row has a user identifier that is not empty:
    memberships without user data are left out. *)
Theorem membership_rows_have_a_user (fuel : nat)
    (orgs : list MemberExport.Organization) (file : list string) (count : nat) :
  MemberExport.exportMemberships getOrganizationMembershipList getHeaderString
    stringifyRecords fuel orgs = Returned (file, count) ->
  exists rows,
    MemberExport.collectRows getOrganizationMembershipList fuel orgs [] = Returned rows
    /\ file = orEmpty getHeaderString :: map (fun r => orEmpty (stringifyRecords [r])) rows
    /\ count = List.length rows
    /\ Forall (fun r => MemberExport.userId r <> EmptyString) rows.
Proof.
  unfold MemberExport.exportMemberships.
  destruct (MemberExport.collectRows getOrganizationMembershipList fuel orgs [])
    as [rows|e|] eqn:Hrows; try discriminate.
  rewrite writeRows_spec. intros H. injection H as <- <-.
  exists rows. repeat split.
  apply (collectRows_rows fuel orgs [] rows Hrows). constructor.
Qed.

End MemberExportFacts.

(* ================================================================== *)
(** * Teams against organizations *)

Lemma has_In (set : list string) (x : string) :
  Compare.has set x = true <-> In x set.
Proof.
  unfold Compare.has. rewrite existsb_exists. split.
  - intros [y [Hy E]]. apply String.eqb_eq in E. now subst.
  - intros H. exists x. split; [exact H | apply String.eqb_refl].
Qed.

Lemma fold_add (values acc : list string) :
  NoDup acc ->
  NoDup (fold_left Compare.add values acc)
  /\ forall x, In x (fold_left Compare.add values acc) <-> In x acc \/ In x values.
Proof.
  revert acc. induction values as [|v rest IH]; intros acc Hacc; simpl.
  - split; [exact Hacc | intros x; tauto].
  - assert (Hadd : NoDup (Compare.add acc v)
                   /\ forall x, In x (Compare.add acc v) <-> In x acc \/ v = x).
    { unfold Compare.add. destruct (Compare.has acc v) eqn:E.
      - apply has_In in E. split; [exact Hacc|]. intros x. split; [tauto|].
        intros [H | <-]; assumption.
      - split.
        + apply NoDup_app; [exact Hacc | repeat constructor; simpl; tauto |].
          intros x Hx [-> | []]. apply (proj2 (has_In acc x)) in Hx. congruence.
        + intros x. rewrite in_app_iff. simpl. tauto. }
    destruct Hadd as [Hnd Hin]. destruct (IH _ Hnd) as [IH1 IH2].
    split; [exact IH1|]. intros x. rewrite IH2, Hin. tauto.
Qed.

Lemma setOf_spec (values : list string) :
  NoDup (Compare.setOf values) /\ forall x, In x (Compare.setOf values) <-> In x values.
Proof.
  destruct (fold_add values [] (NoDup_nil _)) as [H1 H2].
  split; [exact H1|]. intros x. rewrite (H2 x). simpl. tauto.
Qed.

Lemma onlyIn_spec (mine theirs : list string) (x : string) :
  In x (Compare.setOf (filter (fun y => negb (Compare.has (Compare.setOf theirs) y))
                         (Compare.setOf mine)))
  <-> In x mine /\ ~ In x theirs.
Proof.
  rewrite (proj2 (setOf_spec _)), filter_In, (proj2 (setOf_spec mine)).
  rewrite negb_true_iff, <- not_true_iff_false, has_In, (proj2 (setOf_spec theirs)).
  tauto.
Qed.

Lemma onlyInTeams_spec (teams orgs : list Compare.Entry) (x : string) :
  In x (Compare.onlyInTeams teams orgs)
  <-> In x (map Compare.entry_name teams) /\ ~ In x (map Compare.entry_name orgs).
Proof. apply onlyIn_spec. Qed.

(** X24: the two lists of unmatched names hold no name twice, are the
    names of teams that no organization has and the names of organizations
    that no team has, and share no name. *)
Theorem unmatched_names_are_the_differences (teams orgs : list Compare.Entry) :
  NoDup (Compare.onlyInTeams teams orgs)
  /\ NoDup (Compare.onlyInOrgs teams orgs)
  /\ (forall x, In x (Compare.onlyInTeams teams orgs)
                <-> In x (map Compare.entry_name teams)
                    /\ ~ In x (map Compare.entry_name orgs))
  /\ (forall x, In x (Compare.onlyInOrgs teams orgs)
                <-> In x (map Compare.entry_name orgs)
                    /\ ~ In x (map Compare.entry_name teams))
  /\ (forall x, In x (Compare.onlyInTeams teams orgs) ->
                In x (Compare.onlyInOrgs teams orgs) -> False).
Proof.
  unfold Compare.onlyInTeams, Compare.onlyInOrgs, Compare.teamNames, Compare.orgNames.
  split; [apply setOf_spec|]. split; [apply setOf_spec|].
  split; [intros x; apply onlyIn_spec|]. split; [intros x; apply onlyIn_spec|].
  intros x H1 H2. apply onlyIn_spec in H1, H2. tauto.
Qed.

(** X25: the script prints one statement for each pair of a team and an
    organization of the same name, and only those; a team has a statement
    exactly when its name is not listed as found in teams only. *)
Theorem statements_pair_the_equal_names (teams orgs : list Compare.Entry) :
  (forall s, In s (Compare.statements teams orgs)
             <-> exists team org,
                   In team teams /\ In org orgs
                   /\ Compare.entry_name team = Compare.entry_name org
                   /\ s = Compare.formatSQL (Compare.entry_id team) (Compare.entry_id org))
  /\ (forall team, In team teams ->
        (In (Compare.entry_name team) (Compare.onlyInTeams teams orgs)
         /\ ~ exists org, In org orgs
                          /\ Compare.entry_name team = Compare.entry_name org)
        \/ (~ In (Compare.entry_name team) (Compare.onlyInTeams teams orgs)
            /\ exists org, In org orgs
                           /\ Compare.entry_name team = Compare.entry_name org
                           /\ In (Compare.formatSQL (Compare.entry_id team)
                                    (Compare.entry_id org))
                                (Compare.statements teams orgs))).
Proof.
  assert (Hin : forall s, In s (Compare.statements teams orgs)
             <-> exists team org,
                   In team teams /\ In org orgs
                   /\ Compare.entry_name team = Compare.entry_name org
                   /\ s = Compare.formatSQL (Compare.entry_id team) (Compare.entry_id org)).
  { intros s. unfold Compare.statements. rewrite in_flat_map. split.
    - intros [team [Ht Hs]]. apply in_flat_map in Hs. destruct Hs as [org [Ho Hs]].
      destruct (String.eqb_spec (Compare.entry_name team) (Compare.entry_name org))
        as [E|E]; [|contradiction].
      destruct Hs as [<- | []]. exists team, org. auto.
    - intros [team [org [Ht [Ho [E ->]]]]]. exists team. split; [exact Ht|].
      apply in_flat_map. exists org. split; [exact Ho|].
      rewrite E, String.eqb_refl. left. reflexivity. }
  split; [exact Hin|].
  intros team Ht.
  destruct (in_dec string_dec (Compare.entry_name team) (map Compare.entry_name orgs))
    as [Hyes|Hno].
  - right. apply in_map_iff in Hyes. destruct Hyes as [org [E Ho]]. split.
    + intros H. apply (proj1 (onlyInTeams_spec teams orgs _)) in H.
      destruct H as [_ H]. apply H. apply in_map_iff. exists org. auto.
    + exists org. split; [exact Ho|]. split; [now symmetry|].
      apply Hin. exists team, org. auto.
  - left. split.
    + apply (proj2 (onlyInTeams_spec teams orgs _)).
      split; [apply in_map; exact Ht | exact Hno].
    + intros [org [Ho E]]. apply Hno. rewrite E. apply in_map. exact Ho.
Qed.

(* ================================================================== *)
(** * Concrete runs of the properties above *)

(** A record without [agreedTerms]: one log entry keyed [u2], no call. *)
Lemma invalid_record_is_logged_without_call_witness :
  exists entry,
    MemClerk.run 1 (JObj [("userId", JStr "u2"); ("email", JStr "b@x.com")])
      (start MemClerk.State (MemClerk.empty [] false))
    = (Returned tt,
       after (start MemClerk.State (MemClerk.empty [] false)) (MemClerk.empty [] false)
         [EvAppendLog entry] 0 0)
    /\ obj_get "userId" entry = Some (JStr "u2").
Proof.
  destruct (invalid_record_is_logged_without_call MemClerk.anyEmail MemClerk.noIssues
              (Some 1%Z) (Some 10%Z) MemClerk.State MemClerk.api 0
              [("userId", JStr "u2"); ("email", JStr "b@x.com")] _
              (start MemClerk.State (MemClerk.empty [] false)) [] eq_refl)
    as [Hrun [Hid _]].
  eexists. split; [exact Hrun | exact Hid].
Defined.

(** A record whose [name] is [null] does not parse. *)
Lemma null_name_or_location_is_invalid_witness :
  safeParse MemClerk.anyEmail MemClerk.noIssues
    (JObj [("userId", JStr "u4"); ("email", JStr "d@x.com"); ("name", JNull);
           ("agreedTerms", JBool true)])
  = inl (zodError MemClerk.noIssues
           (JObj [("userId", JStr "u4"); ("email", JStr "d@x.com"); ("name", JNull);
                  ("agreedTerms", JBool true)])).
Proof.
  apply null_name_or_location_is_invalid. left. reflexivity.
Defined.

(** A [null] between two records: the first is created, the third is not
    reached. *)
Lemma null_record_aborts_run_witness :
  exists w',
    migrateAll MemClerk.anyEmail MemClerk.noIssues (Some 1%Z) (Some 10%Z)
      MemClerk.State MemClerk.api 1 ([MemClerk.jane] ++ JNull :: [Scripted.carol])
      (start MemClerk.State (MemClerk.empty [] false))
    = (Threw [], w')
    /\ migrated w' = 1
    /\ List.length (filter isCreate (trace w')) = 1.
Proof.
  eexists. split.
  - apply (null_record_aborts_run MemClerk.anyEmail MemClerk.noIssues (Some 1%Z)
             (Some 10%Z) MemClerk.State MemClerk.api 0 [MemClerk.jane] [Scripted.carol]
             (start MemClerk.State (MemClerk.empty [] false)) _ eq_refl).
  - split; reflexivity.
Defined.

(** A conflict whose lookup is rejected with status 500 ends the run with
    that error. *)
Lemma rejected_lookup_or_update_aborts_run_witness :
  fst (migrateAll MemClerk.anyEmail MemClerk.noIssues (Some 1%Z) (Some 10%Z) unit
         (Scripted.api (inl MemClerk.conflict) (inl MemClerk.serverError)
            (inl MemClerk.notFound))
         1 ([] ++ MemClerk.jane :: [Scripted.carol]) (start unit tt))
  = Threw MemClerk.serverError.
Proof.
  rewrite (proj1 (rejected_lookup_or_update_aborts_run MemClerk.anyEmail
                    MemClerk.noIssues (Some 1%Z) (Some 10%Z) unit
                    (Scripted.api (inl MemClerk.conflict) (inl MemClerk.serverError)
                       (inl MemClerk.notFound))
                    0 MemClerk.jane MemClerk.janeUser [] [Scripted.carol]
                    (start unit tt) (start unit tt) MemClerk.conflict tt
                    eq_refl eq_refl eq_refl eq_refl)
             MemClerk.serverError tt eq_refl).
  reflexivity.
Defined.

(** Three records, one of them empty, against a service that rejects every
    create call with a conflict. *)
Lemma record_failures_never_stop_the_run_witness :
  fst (main MemClerk.anyEmail MemClerk.noIssues (Some 1%Z) (Some 10%Z) unit
         (Scripted.api (inl MemClerk.conflict)
            (inr {| data := [Scripted.unnamed]; totalCount := 1 |})
            (inr Scripted.unnamed))
         2 None [Scripted.carol; JObj []; MemClerk.jane] (start unit tt))
  <> Threw MemClerk.serverError.
Proof.
  apply (record_failures_never_stop_the_run MemClerk.anyEmail MemClerk.noIssues
           (Some 1%Z) (Some 10%Z) unit
           (Scripted.api (inl MemClerk.conflict)
              (inr {| data := [Scripted.unnamed]; totalCount := 1 |})
              (inr Scripted.unnamed))).
  - intros emails s. eexists. eexists. reflexivity.
  - intros target params s. eexists. eexists. reflexivity.
  - repeat constructor; discriminate.
Defined.

(** Two records against a service that answers every create call with a
    conflict: the run ends, with two create calls at most. *)
Lemma without_rate_limit_one_create_per_record_witness :
  fst (main MemClerk.anyEmail MemClerk.noIssues (Some 1%Z) (Some 10%Z) unit
         (Scripted.api (inl MemClerk.conflict) (inr {| data := []; totalCount := 0 |})
            (inr Scripted.unnamed))
         1 None [MemClerk.jane; Scripted.carol] (start unit tt)) <> Spent
  /\ List.length
       (filter isCreate
          (trace (snd (main MemClerk.anyEmail MemClerk.noIssues (Some 1%Z) (Some 10%Z)
                         unit
                         (Scripted.api (inl MemClerk.conflict)
                            (inr {| data := []; totalCount := 0 |})
                            (inr Scripted.unnamed))
                         1 None [MemClerk.jane; Scripted.carol] (start unit tt)))))
     <= 2.
Proof.
  destruct (without_rate_limit_one_create_per_record MemClerk.anyEmail MemClerk.noIssues
              (Some 1%Z) (Some 10%Z) unit
              (Scripted.api (inl MemClerk.conflict)
                 (inr {| data := []; totalCount := 0 |}) (inr Scripted.unnamed))
              ltac:(intros params s error s' H; injection H as <- _; reflexivity)
              0 None [MemClerk.jane; Scripted.carol] tt) as [H1 [H2 _]].
  split; [exact H1 | exact H2].
Defined.

(** A record without name against its own entity, whose name fields are
    [null]: the entity is updated. *)
Lemma entity_with_null_field_is_updated_witness :
  differs Scripted.unnamed Scripted.carolUser = true
  /\ updated
       (snd (processUserToClerk MemClerk.anyEmail MemClerk.noIssues (Some 10%Z) unit
               (Scripted.api (inl MemClerk.conflict)
                  (inr {| data := [Scripted.unnamed]; totalCount := 1 |})
                  (inr Scripted.unnamed))
               1 Scripted.carol (start unit tt)))
     = 1.
Proof.
  destruct (entity_with_null_field_is_updated MemClerk.anyEmail MemClerk.noIssues
              (Some 10%Z) unit
              (Scripted.api (inl MemClerk.conflict)
                 (inr {| data := [Scripted.unnamed]; totalCount := 1 |})
                 (inr Scripted.unnamed))
              0 Scripted.carol Scripted.carolUser (start unit tt)
              MemClerk.conflict tt {| data := [Scripted.unnamed]; totalCount := 1 |} tt
              Scripted.unnamed [] Scripted.unnamed tt
              eq_refl eq_refl eq_refl eq_refl eq_refl
              (or_intror (or_introl eq_refl)) eq_refl) as [Hdiff Hrun].
  split; [exact Hdiff|]. rewrite Hrun. reflexivity.
Defined.

(** A run over two records, read off a run over the first and a run with
    offset 1. *)
Lemma resumed_run_completes_the_run_witness :
  fst (main MemClerk.anyEmail MemClerk.noIssues (Some 1%Z) (Some 10%Z)
         MemClerk.State MemClerk.api 1 (Some 0%Z) ([MemClerk.jane] ++ [Scripted.carol])
         (start MemClerk.State (MemClerk.empty [] false)))
  = Returned tt
  /\ migrated
       (snd (main MemClerk.anyEmail MemClerk.noIssues (Some 1%Z) (Some 10%Z)
               MemClerk.State MemClerk.api 1 (Some 0%Z)
               ([MemClerk.jane] ++ [Scripted.carol])
               (start MemClerk.State (MemClerk.empty [] false))))
     = 2.
Proof.
  pose proof (resumed_run_completes_the_run MemClerk.anyEmail MemClerk.noIssues
                (Some 1%Z) (Some 10%Z) MemClerk.State MemClerk.api 1
                [MemClerk.jane] [Scripted.carol] (MemClerk.empty [] false) _ eq_refl)
    as H.
  cbv zeta in H. rewrite H. split; reflexivity.
Defined.

(** A name of two words between blanks. *)
Lemma splitName_keeps_the_trimmed_name_witness :
  trim " Jane Doe " = ("Jane" ++ String " " "Doe")%string.
Proof.
  pose proof (splitName_keeps_the_trimmed_name " Jane Doe " ltac:(discriminate)) as H.
  exact (proj1 H).
Defined.

(** 1200 users by pages of 500: both traversals return the 1200 users in
    order. *)
Lemma traversal_returns_the_collection_witness :
  fst (Backup.retrieveUsers nat (pageOf (seq 0 1200)) 1201) = Returned (seq 0 1200)
  /\ fst (UserBackup.retrieveUsers nat (pageOf (seq 0 1200)) 1201)
     = Returned (seq 0 1200).
Proof.
  split.
  - apply (proj1 (traversal_returns_the_collection nat (seq 0 1200)
                    (pageOf (seq 0 1200)) Backup.userParams 500 ltac:(lia)
                    (fun o => eq_refl) 1201 ltac:(rewrite length_seq; lia))).
  - apply (proj2 (traversal_returns_the_collection nat (seq 0 1200)
                    (pageOf (seq 0 1200)) UserBackup.userParams 500 ltac:(lia)
                    (fun o => eq_refl) 1201 ltac:(rewrite length_seq; lia))).
Defined.

(** A service that reports one user and returns none. *)
Lemma empty_pages_never_end_the_traversal_witness :
  fst (Backup.retrieveUsers nat (fun _ => inr {| data := []; totalCount := 1 |}) 1000)
  = Spent.
Proof.
  apply (proj1 (empty_pages_never_end_the_traversal nat
                  (fun _ => inr {| data := []; totalCount := 1 |}) Backup.userParams 500
                  (fun o => ex_intro _ {| data := []; totalCount := 1 |}
                              (conj eq_refl (conj eq_refl (le_n 1))))
                  1000)).
Defined.

(** An organization with two memberships, one of them without user data:
    one row. *)
Lemma membership_rows_have_a_user_witness :
  exists rows,
    MemberExport.collectRows
      (pageOf [ {| MemberExport.m_organization :=
                     {| MemberExport.org_id := "org_1"; MemberExport.org_name := "Acme" |};
                   MemberExport.m_publicUserData :=
                     Some {| MemberExport.pud_userId := "user_1";
                             MemberExport.pud_identifier := "a@x.com" |} |};
                {| MemberExport.m_organization :=
                     {| MemberExport.org_id := "org_1"; MemberExport.org_name := "Acme" |};
                   MemberExport.m_publicUserData := None |} ])
      2 [ {| MemberExport.org_id := "org_1"; MemberExport.org_name := "Acme" |} ] []
    = Returned rows
    /\ List.length rows = 1
    /\ Forall (fun r => MemberExport.userId r <> EmptyString) rows.
Proof.
  destruct (membership_rows_have_a_user
              (pageOf [ {| MemberExport.m_organization :=
                     {| MemberExport.org_id := "org_1"; MemberExport.org_name := "Acme" |};
                   MemberExport.m_publicUserData :=
                     Some {| MemberExport.pud_userId := "user_1";
                             MemberExport.pud_identifier := "a@x.com" |} |};
                {| MemberExport.m_organization :=
                     {| MemberExport.org_id := "org_1"; MemberExport.org_name := "Acme" |};
                   MemberExport.m_publicUserData := None |} ])
              (Some "orgId,userId") (fun _ => Some "row") 2
              [ {| MemberExport.org_id := "org_1"; MemberExport.org_name := "Acme" |} ]
              _ 1 eq_refl) as [rows [Hrows [_ [Hcount Hall]]]].
  exists rows. split; [exact Hrows|]. split; [now symmetry | exact Hall].
Defined.
